(** * Task Caller (server.js): due-task scheduler, extraction client and
      voice dialog handlers, embedded in Rocq.

    Conventions of the embedding.
    - A JavaScript string is a [string]: a sequence of code units, each read
      as the Latin-1 code point U+0000..U+00FF of the same number.
    - A Date is its time value: [Some t] with [t] milliseconds since the
      epoch, or [None] for an Invalid Date (time value NaN).
    - [undefined]/[null] property values are [None].
    - What the host supplies (the Date string parser, the local time zone,
      locale formatting) is collected in the class [Host]; the model is
      generic in it. *)

From Stdlib Require Import ZArith NArith List Bool Ascii String Lia.
From Stdlib Require Import Sorted Permutation.
From Stdlib Require Import DecimalString.
Import ListNotations.

Open Scope string_scope.
Open Scope Z_scope.

(* ================================================================== *)
(** ** JavaScript values and built-ins used by the program *)
(* ================================================================== *)

Module Js.

(** Errors thrown by the code or by built-ins. *)
Inductive exn : Type :=
| Error (message : string)
| SyntaxError.

(** Result of evaluating something that may throw. *)
Inductive outcome (A : Type) : Type :=
| Returned (a : A)
| Threw (e : exn).
Arguments Returned {A} a.
Arguments Threw {A} e.

(** [String.prototype.toLowerCase] on one code unit of the Latin-1 range:
    A-Z and the upper-case letters U+00C0..U+00DE (U+00D7 is the
    multiplication sign) move 32 places up. *)
Definition lower_unit (c : ascii) : ascii :=
  let n := N_of_ascii c in
  if ((65 <=? n) && (n <=? 90))%N
     || ((192 <=? n) && (n <=? 222) && negb (n =? 215))%N
  then ascii_of_N (n + 32) else c.

Fixpoint toLowerCase (s : string) : string :=
  match s with
  | EmptyString => EmptyString
  | String c s' => String (lower_unit c) (toLowerCase s')
  end.

(** [s.includes(t)]: [t] occurs in [s] as a contiguous substring. *)
Fixpoint includes (s t : string) : bool :=
  if prefix t s then true
  else match s with
       | EmptyString => false
       | String _ s' => includes s' t
       end.

(** White space and line terminators that [String.prototype.trim] strips,
    within the Latin-1 range: TAB, LF, VT, FF, CR, SP, NBSP. *)
Definition is_trim_space (c : ascii) : bool :=
  let n := N_of_ascii c in
  ((n =? 9) || (n =? 10) || (n =? 11) || (n =? 12) || (n =? 13)
   || (n =? 32) || (n =? 160))%N.

Fixpoint trimStart (s : string) : string :=
  match s with
  | String c s' => if is_trim_space c then trimStart s' else s
  | EmptyString => EmptyString
  end.

Fixpoint trimEnd (s : string) : string :=
  match s with
  | EmptyString => EmptyString
  | String c s' =>
      match trimEnd s' with
      | EmptyString => if is_trim_space c then EmptyString else String c EmptyString
      | r => String c r
      end
  end.

Definition trim (s : string) : string := trimEnd (trimStart s).

(** Truthiness of a string-or-undefined value: [undefined] and [""] are
    falsy. *)
Definition truthy (v : option string) : bool :=
  match v with
  | Some s => negb (s =? "")%string
  | None => false
  end.

(** [v || d] for a string-or-undefined [v]. *)
Definition or_else (v : option string) (d : string) : string :=
  if truthy v then match v with Some s => s | None => d end else d.

(** Template-literal conversion of a string-or-undefined value. *)
Definition template (v : option string) : string :=
  match v with Some s => s | None => "undefined" end.

(** Decimal rendering of a non-negative integer, as in a template
    literal. *)
Definition nat_to_string (n : nat) : string :=
  NilEmpty.string_of_uint (Nat.to_uint n).

(** *** Dates *)

Definition msPerDay : Z := 86400000.

(** [TimeClip]: time values beyond 8.64e15 ms are NaN. *)
Definition TimeClip (t : Z) : option Z :=
  if Z.abs t <=? 8640000000000000 then Some t else None.

(** Relational operators on Dates compare time values; any comparison
    with NaN is false. *)
Definition Date_ge (a b : option Z) : bool :=
  match a, b with
  | Some x, Some y => y <=? x
  | _, _ => false
  end.

Definition Date_le (a b : option Z) : bool :=
  match a, b with
  | Some x, Some y => x <=? y
  | _, _ => false
  end.

(** [a - b] on Dates: a number, NaN when either date is invalid. *)
Definition Date_sub (a b : option Z) : option Z :=
  match a, b with
  | Some x, Some y => Some (x - y)
  | _, _ => None
  end.

(** What the host environment decides. *)
Class Host : Type := {
  (** [Date.parse]: the time value of a date string, [None] for NaN. *)
  Date_parse : string -> option Z;
  (** The abstract operation LocalTime: UTC time value to local time value. *)
  LocalTime : Z -> Z;
  (** The abstract operation UTC: local time value to UTC time value. *)
  UTC : Z -> Z;
  (** [toLocaleDateString('en-US', {weekday:'long', month:'short',
      day:'numeric'})] of a Date. *)
  toLocaleDateString : option Z -> string
}.

Section WithHost.
Context `{Host}.

(** [new Date(s)] for a string [s]. *)
Definition Date_of_string (s : string) : option Z :=
  match Date_parse s with
  | Some tv => TimeClip tv
  | None => None
  end.

(** [new Date(v)] for a string-or-undefined [v]; [new Date(undefined)] is
    an Invalid Date. *)
Definition Date_of_value (v : option string) : option Z :=
  match v with
  | Some s => Date_of_string s
  | None => None
  end.

(** [d.setDate(d.getDate() + days)] on a valid Date with time value [t].
    [getDate] reads the day of the month of [LocalTime t]; [setDate]
    rebuilds the date by MakeDay from the same year and month and the new
    day number, keeps the time within the day, converts back with UTC and
    clips. MakeDay carries day overflow into the following months, so the
    local time value moves by [days] whole days. *)
Definition Date_plusDays (t : Z) (days : Z) : option Z :=
  TimeClip (UTC (LocalTime t + days * msPerDay)).

End WithHost.

(** *** [Array.prototype.sort]

    The comparator returns a number, [None] standing for NaN, which
    SortCompare reads as +0. The sort is stable; it is modelled by a stable
    insertion sort. Whenever the comparator is consistent on the elements
    of the array (a total preorder on them), the sorted stable arrangement
    is unique and the result is the one every conforming engine gives.
    With an inconsistent comparator the order is left to the engine, and
    this function speaks for an engine only where every order of
    comparisons leads to the same result, as on an array of two elements
    that compare as equal both ways. Statements about the order of a
    result are made under one of these two conditions. *)
Section Sort.
Context {A : Type} (comparefn : A -> A -> option Z).

Definition SortCompare (x y : A) : Z :=
  match comparefn x y with
  | Some v => v
  | None => 0
  end.

Fixpoint insert (x : A) (l : list A) : list A :=
  match l with
  | [] => [x]
  | y :: l' => if SortCompare x y <=? 0 then x :: l else y :: insert x l'
  end.

Definition Array_sort (l : list A) : list A := fold_right insert [] l.

End Sort.

End Js.
Import Js.

(* ================================================================== *)
(** ** Task repository adapter and due-task scheduler *)
(* ================================================================== *)

(** One element of the array built by [readTasks]. *)
Record Task : Type := mkTask {
  rowIndex : nat;
  task : string;
  priority : string;
  status : string;
  dueDate : string
}.

(** [row[i]] of a row of cells: [undefined] past the end. *)
Definition cell (row : list string) (i : nat) : option string := nth_error row i.

Fixpoint mapi_from {A B : Type} (f : A -> nat -> B) (i : nat) (l : list A) : list B :=
  match l with
  | [] => []
  | x :: l' => f x i :: mapi_from f (S i) l'
  end.

(** [readTasks]. The argument is the outcome of
    [sheets.spreadsheets.values.get]: the [values] of the response
    ([None] when the range is empty) or a thrown error, which is caught
    and answered by the empty array. *)
Definition readTasks (response : outcome (option (list (list string)))) : list Task :=
  match response with
  | Returned values =>
      let rows := match values with Some rows => rows | None => [] end in
      mapi_from (fun row index =>
        {| rowIndex := index + 2;
           task := or_else (cell row 0) "";
           priority := or_else (cell row 1) "Medium";
           status := or_else (cell row 2) "Not Started";
           dueDate := or_else (cell row 3) "" |}) 0%nat rows
  | Threw _ => []
  end.

(** Values that [priorityOrder[key]] can yield. Besides the three own
    properties, the object literal inherits the properties of
    [Object.prototype]: its methods, which are function objects, and the
    accessor [__proto__], which yields [Object.prototype] itself. *)
Inductive PropertyValue : Type :=
| Number (n : Z)
| BuiltinFunction (name : string)
| ObjectPrototype.

Definition objectPrototypeMethods : list string :=
  [ "constructor"; "hasOwnProperty"; "isPrototypeOf"; "propertyIsEnumerable";
    "toLocaleString"; "toString"; "valueOf";
    "__defineGetter__"; "__defineSetter__"; "__lookupGetter__"; "__lookupSetter__" ].

(** [priorityOrder[key]] for [priorityOrder = { high: 0, medium: 1, low: 2 }]. *)
Definition priorityOrder (key : string) : option PropertyValue :=
  if (key =? "high")%string then Some (Number 0)
  else if (key =? "medium")%string then Some (Number 1)
  else if (key =? "low")%string then Some (Number 2)
  else if existsb (String.eqb key) objectPrototypeMethods then Some (BuiltinFunction key)
  else if (key =? "__proto__")%string then Some ObjectPrototype
  else None.

(** [v ?? 1]. *)
Definition nullish_1 (v : option PropertyValue) : PropertyValue :=
  match v with Some p => p | None => Number 1 end.

(** [pA !== pB]: numbers by value, objects by identity. *)
Definition strict_neq (a b : PropertyValue) : bool :=
  match a, b with
  | Number x, Number y => negb (x =? y)
  | BuiltinFunction f, BuiltinFunction g => negb (f =? g)%string
  | ObjectPrototype, ObjectPrototype => false
  | _, _ => true
  end.

(** [pA - pB]: both operands go through ToNumber, which is NaN on a
    function and on [Object.prototype]. *)
Definition minus (a b : PropertyValue) : option Z :=
  match a, b with
  | Number x, Number y => Some (x - y)
  | _, _ => None
  end.

Section Scheduler.
Context `{Host}.

(** The callback of [tasks.filter] in [getUpcomingTasks]. *)
Definition dueFilter (now cutoff : option Z) (t : Task) : bool :=
  if (toLowerCase (status t) =? "completed")%string
     || (toLowerCase (status t) =? "done")%string
  then false
  else if negb (truthy (Some (dueDate t))) then false
  else
    let due := Date_of_string (dueDate t) in
    Date_ge due now && Date_le due cutoff.

(** The callback of [.sort] in [getUpcomingTasks]. *)
Definition byPriorityThenDue (a b : Task) : option Z :=
  let pA := nullish_1 (priorityOrder (toLowerCase (priority a))) in
  let pB := nullish_1 (priorityOrder (toLowerCase (priority b))) in
  if strict_neq pA pB then minus pA pB
  else Date_sub (Date_of_string (dueDate a)) (Date_of_string (dueDate b)).

(** The body of [getUpcomingTasks(days = 5)] after [readTasks] has
    returned [tasks]. [now] and [now'] are the two readings of the clock
    taken by [const now = new Date()] and [const cutoff = new Date()]. *)
Definition upcoming (days : option Z) (tasks : list Task) (now now' : Z) : list Task :=
  let days := match days with Some d => d | None => 5 end in
  let cutoff := Date_plusDays now' days in
  Array_sort byPriorityThenDue (filter (dueFilter (Some now) cutoff) tasks).

Definition getUpcomingTasks (days : option Z)
    (response : outcome (option (list (list string)))) (now now' : Z) : list Task :=
  upcoming days (readTasks response) now now'.

(** The scheduler's contract [computeDueTasks(allTasks, windowDays,
    referenceInstant)]: [getUpcomingTasks] on the given tasks with the clock
    standing at the reference instant. *)
Definition computeDueTasks (allTasks : list Task) (windowDays : option Z)
    (referenceInstant : Z) : list Task :=
  upcoming windowDays allTasks referenceInstant referenceInstant.

(** The end of the due window: the reference instant plus [windowDays]
    days. *)
Definition windowEnd (referenceInstant windowDays : Z) : option Z :=
  Date_plusDays referenceInstant windowDays.

End Scheduler.

(** Completion as the filter reads it. *)
Definition isCompleted (t : Task) : bool :=
  (toLowerCase (status t) =? "completed")%string
  || (toLowerCase (status t) =? "done")%string.

(** Priority rank of the three levels, every other priority ranking as
    Medium. *)
Definition rank (t : Task) : Z :=
  let p := toLowerCase (priority t) in
  if (p =? "high")%string then 0
  else if (p =? "low")%string then 2
  else 1.

(* ================================================================== *)
(** ** A concrete host: UTC clock, ISO date-only strings, en-US names *)
(* ================================================================== *)

Module UtcHost.

(** Days since 1970-01-01 of a proleptic Gregorian date. *)
Definition days_from_civil (y m d : Z) : Z :=
  let y' := if m <=? 2 then y - 1 else y in
  let era := y' / 400 in
  let yoe := y' - era * 400 in
  let mp := if m <=? 2 then m + 9 else m - 3 in
  let doy := (153 * mp + 2) / 5 + d - 1 in
  let doe := yoe * 365 + yoe / 4 - yoe / 100 + doy in
  era * 146097 + doe - 719468.

(** Month (1..12) and day of the month of a day number. *)
Definition civil_from_days (z : Z) : Z * Z :=
  let z' := z + 719468 in
  let era := z' / 146097 in
  let doe := z' - era * 146097 in
  let yoe := (doe - doe / 1460 + doe / 36524 - doe / 146096) / 365 in
  let doy := doe - (365 * yoe + yoe / 4 - yoe / 100) in
  let mp := (5 * doy + 2) / 153 in
  let d := doy - (153 * mp + 2) / 5 + 1 in
  let m := if mp <? 10 then mp + 3 else mp - 9 in
  (m, d).

Definition isLeap (y : Z) : bool :=
  ((y mod 4 =? 0) && negb (y mod 100 =? 0)) || (y mod 400 =? 0).

Definition daysInMonth (y m : Z) : Z :=
  if m =? 2 then (if isLeap y then 29 else 28)
  else if (m =? 4) || (m =? 6) || (m =? 9) || (m =? 11) then 30
  else 31.

Definition digit (c : ascii) : option Z :=
  let n := Z.of_N (N_of_ascii c) in
  if (48 <=? n) && (n <=? 57) then Some (n - 48) else None.

Fixpoint digits (acc : Z) (l : list ascii) : option Z :=
  match l with
  | [] => Some acc
  | c :: l' => match digit c with
               | Some v => digits (acc * 10 + v) l'
               | None => None
               end
  end.

(** [Date.parse] on the date-only form [YYYY-MM-DD] of the ECMAScript
    date-time string format, with a day that exists in the month, read as
    UTC midnight. Every other string is answered NaN here; an engine also
    reads other forms (full timestamps, month/day/year), so this host
    stands for an engine only on date-only strings and on strings no
    engine reads as a date. *)
Definition parseIsoDate (s : string) : option Z :=
  match list_ascii_of_string s with
  | [y1; y2; y3; y4; "-"%char; m1; m2; "-"%char; d1; d2] =>
      match digits 0 [y1; y2; y3; y4], digits 0 [m1; m2], digits 0 [d1; d2] with
      | Some y, Some m, Some d =>
          if (1 <=? m) && (m <=? 12) && (1 <=? d) && (d <=? daysInMonth y m)
          then Some (days_from_civil y m d * msPerDay)
          else None
      | _, _, _ => None
      end
  | _ => None
  end.

Definition weekdayName (z : Z) : string :=
  nth (Z.to_nat ((z + 4) mod 7))
      ["Sunday"; "Monday"; "Tuesday"; "Wednesday"; "Thursday"; "Friday"; "Saturday"] "".

Definition monthName (m : Z) : string :=
  nth (Z.to_nat (m - 1))
      ["Jan"; "Feb"; "Mar"; "Apr"; "May"; "Jun"; "Jul"; "Aug"; "Sep"; "Oct"; "Nov"; "Dec"] "".

(** The en-US rendering with a long weekday, a short month and a numeric
    day, in UTC: "Monday, Feb 10". *)
Definition formatDate (d : option Z) : string :=
  match d with
  | None => "Invalid Date"
  | Some t =>
      let z := t / msPerDay in
      let '(m, dd) := civil_from_days z in
      weekdayName z ++ ", " ++ monthName m ++ " " ++ nat_to_string (Z.to_nat dd)
  end.

Definition host : Host := {|
  Date_parse := parseIsoDate;
  LocalTime := fun t => t;
  UTC := fun t => t;
  toLocaleDateString := formatDate
|}.

End UtcHost.

(* ================================================================== *)
(** ** [JSON.parse] *)
(* ================================================================== *)

Module Json.

(** A parsed JSON text. String contents are code units, since a [\u]
    escape may denote one beyond U+00FF; a number keeps its lexeme; the
    members of an object are kept in source order. *)
#[warnings="-register-all"]
Inductive json : Type :=
| JNull
| JBool (b : bool)
| JNumber (lexeme : list ascii)
| JString (units : list N)
| JArray (elements : list json)
| JObject (members : list (list N * json)).

Inductive res (A : Type) : Type :=
| Ok (a : A) (rest : list ascii)
| Bad
| OutOfFuel.
Arguments Ok {A} a rest.
Arguments Bad {A}.
Arguments OutOfFuel {A}.

Definition dquote : ascii := "034".
Definition backslash : ascii := "092".

Definition is_ws (c : ascii) : bool :=
  let n := N_of_ascii c in ((n =? 9) || (n =? 10) || (n =? 13) || (n =? 32))%N.

Fixpoint skip_ws (l : list ascii) : list ascii :=
  match l with
  | c :: l' => if is_ws c then skip_ws l' else l
  | [] => []
  end.

Definition is_digit (c : ascii) : bool :=
  let n := N_of_ascii c in ((48 <=? n) && (n <=? 57))%N.

Definition hex (c : ascii) : option N :=
  let n := N_of_ascii c in
  if ((48 <=? n) && (n <=? 57))%N then Some (n - 48)%N
  else if ((65 <=? n) && (n <=? 70))%N then Some (n - 55)%N
  else if ((97 <=? n) && (n <=? 102))%N then Some (n - 87)%N
  else None.

(** The character an escape letter stands for. *)
Definition escape (c : ascii) : option N :=
  if (c =? dquote)%char then Some 34%N
  else if (c =? backslash)%char then Some 92%N
  else if (c =? "/")%char then Some 47%N
  else if (c =? "b")%char then Some 8%N
  else if (c =? "f")%char then Some 12%N
  else if (c =? "n")%char then Some 10%N
  else if (c =? "r")%char then Some 13%N
  else if (c =? "t")%char then Some 9%N
  else None.

(** The characters of a string after its opening quote, up to and
    including the closing quote. Control characters below U+0020 are not
    allowed unescaped. *)
Fixpoint parse_chars (l : list ascii) (acc : list N) : option (list N * list ascii) :=
  match l with
  | [] => None
  | c :: l' =>
      if (c =? dquote)%char then Some (rev acc, l')
      else if (c =? backslash)%char then
        match l' with
        | [] => None
        | e :: l'' =>
            if (e =? "u")%char then
              match l'' with
              | h1 :: h2 :: h3 :: h4 :: l3 =>
                  match hex h1, hex h2, hex h3, hex h4 with
                  | Some a, Some b, Some c', Some d =>
                      parse_chars l3 ((((a * 16 + b) * 16 + c') * 16 + d)%N :: acc)
                  | _, _, _, _ => None
                  end
              | _ => None
              end
            else
              match escape e with
              | Some u => parse_chars l'' (u :: acc)
              | None => None
              end
        end
      else if (N_of_ascii c <? 32)%N then None
      else parse_chars l' (N_of_ascii c :: acc)
  end.

(** The longest run of digits at the head of [l]. *)
Fixpoint span_digits (l : list ascii) : list ascii * list ascii :=
  match l with
  | c :: l' =>
      if is_digit c then let '(ds, r) := span_digits l' in (c :: ds, r)
      else ([], l)
  | [] => ([], [])
  end.

(** A number: an optional minus sign; an integer part, either a single 0
    or a non-zero digit followed by digits; an optional fraction, a point
    and one or more digits; an optional exponent, e or E, an optional sign
    and one or more digits. *)
Definition parse_int (l : list ascii) : option (list ascii * list ascii) :=
  match l with
  | c :: l' =>
      if (c =? "0")%char then Some ([c], l')
      else if is_digit c then Some (span_digits l)
      else None
  | [] => None
  end.

Definition parse_frac (l : list ascii) : option (list ascii * list ascii) :=
  match l with
  | c :: l' =>
      if (c =? ".")%char then
        match span_digits l' with
        | ([], _) => None
        | (ds, r) => Some (c :: ds, r)
        end
      else Some ([], l)
  | [] => Some ([], [])
  end.

Definition parse_exp (l : list ascii) : option (list ascii * list ascii) :=
  match l with
  | c :: l' =>
      if (c =? "e")%char || (c =? "E")%char then
        let '(sign, l1) :=
          match l' with
          | s :: l1 => if (s =? "+")%char || (s =? "-")%char then ([s], l1) else ([], l')
          | [] => ([], l')
          end in
        match span_digits l1 with
        | ([], _) => None
        | (ds, r) => Some (c :: (sign ++ ds)%list, r)
        end
      else Some ([], l)
  | [] => Some ([], [])
  end.

Definition parse_number (l : list ascii) : option (list ascii * list ascii) :=
  let '(sign, l0) :=
    match l with
    | c :: l' => if (c =? "-")%char then ([c], l') else ([], l)
    | [] => ([], l)
    end in
  match parse_int l0 with
  | None => None
  | Some (i, l1) =>
      match parse_frac l1 with
      | None => None
      | Some (f, l2) =>
          match parse_exp l2 with
          | None => None
          | Some (e, l3) => Some ((sign ++ i ++ f ++ e)%list, l3)
          end
      end
  end.

(** [l] starts with the characters of [w]; what follows them. *)
Fixpoint strip_prefix (w : string) (l : list ascii) : option (list ascii) :=
  match w with
  | EmptyString => Some l
  | String c w' =>
      match l with
      | d :: l' => if (c =? d)%char then strip_prefix w' l' else None
      | [] => None
      end
  end.

(** A value at the head of [l] (no leading white space), the members of an
    object after its opening brace and the elements of an array after its
    opening bracket. A call for a value is on a shorter input than the
    call before it, so fuel above twice the length of the input is never
    used up. *)
Fixpoint parse_value (fuel : nat) (l : list ascii) : res json :=
  match fuel with
  | O => OutOfFuel
  | S fuel' =>
      match l with
      | [] => Bad
      | c :: l1 =>
          if (c =? "{")%char then
            match skip_ws l1 with
            | [] => Bad
            | d :: l2 =>
                if (d =? "}")%char then Ok (JObject []) l2
                else parse_members fuel' (d :: l2) []
            end
          else if (c =? "[")%char then
            match skip_ws l1 with
            | [] => Bad
            | d :: l2 =>
                if (d =? "]")%char then Ok (JArray []) l2
                else parse_elements fuel' (d :: l2) []
            end
          else if (c =? dquote)%char then
            match parse_chars l1 [] with
            | Some (s, l2) => Ok (JString s) l2
            | None => Bad
            end
          else
            match strip_prefix "true" l, strip_prefix "false" l, strip_prefix "null" l with
            | Some r, _, _ => Ok (JBool true) r
            | _, Some r, _ => Ok (JBool false) r
            | _, _, Some r => Ok JNull r
            | None, None, None =>
                match parse_number l with
                | Some (lexeme, r) => Ok (JNumber lexeme) r
                | None => Bad
                end
            end
      end
  end

with parse_members (fuel : nat) (l : list ascii) (acc : list (list N * json)) : res json :=
  match fuel with
  | O => OutOfFuel
  | S fuel' =>
      match l with
      | [] => Bad
      | c :: l1 =>
          if (c =? dquote)%char then
            match parse_chars l1 [] with
            | None => Bad
            | Some (k, l2) =>
                match skip_ws l2 with
                | [] => Bad
                | d :: l3 =>
                    if (d =? ":")%char then
                      match parse_value fuel' (skip_ws l3) with
                      | Ok v l4 =>
                          match skip_ws l4 with
                          | [] => Bad
                          | e :: l5 =>
                              if (e =? ",")%char then
                                parse_members fuel' (skip_ws l5) ((k, v) :: acc)
                              else if (e =? "}")%char then
                                Ok (JObject (rev ((k, v) :: acc))) l5
                              else Bad
                          end
                      | Bad => Bad
                      | OutOfFuel => OutOfFuel
                      end
                    else Bad
                end
            end
          else Bad
      end
  end

with parse_elements (fuel : nat) (l : list ascii) (acc : list json) : res json :=
  match fuel with
  | O => OutOfFuel
  | S fuel' =>
      match parse_value fuel' l with
      | Ok v l1 =>
          match skip_ws l1 with
          | [] => Bad
          | e :: l2 =>
              if (e =? ",")%char then parse_elements fuel' (skip_ws l2) (v :: acc)
              else if (e =? "]")%char then Ok (JArray (rev (v :: acc))) l2
              else Bad
          end
      | Bad => Bad
      | OutOfFuel => OutOfFuel
      end
  end.

(** [JSON.parse(s)]: one value with white space around it and nothing
    else, or a SyntaxError. *)
Definition JSON_parse (s : string) : outcome json :=
  let l := list_ascii_of_string s in
  match parse_value (S (2 * List.length l)) (skip_ws l) with
  | Ok v rest =>
      match skip_ws rest with
      | [] => Returned v
      | _ :: _ => Threw SyntaxError
      end
  | _ => Threw SyntaxError
  end.

(** Code units as a string, when all are in the Latin-1 range. *)
Fixpoint string_of_units (u : list N) : option string :=
  match u with
  | [] => Some EmptyString
  | n :: u' =>
      if (n <? 256)%N then
        match string_of_units u' with
        | Some s => Some (String (ascii_of_N n) s)
        | None => None
        end
      else None
  end.

Definition units_of_string (s : string) : list N :=
  map N_of_ascii (list_ascii_of_string s).

(** [o[key]] for a parsed object: with a repeated key the last member
    wins. *)
Fixpoint lookup (key : list N) (members : list (list N * json)) : option json :=
  match members with
  | [] => None
  | (k, v) :: rest =>
      match lookup key rest with
      | Some v' => Some v'
      | None => if list_eq_dec N.eq_dec k key then Some v else None
      end
  end.

End Json.
Import Json.

(* ================================================================== *)
(** ** Extraction client *)
(* ================================================================== *)

(** [text.match] with the pattern of an opening brace, any characters
    (line breaks too) taken greedily, and a closing brace, without the
    global flag: the leftmost match starts at the first
    opening brace; the greedy body then runs to the last closing brace
    after it. *)
Fixpoint from_first_open (s : string) : option string :=
  match s with
  | EmptyString => None
  | String c s' => if (c =? "{")%char then Some s' else from_first_open s'
  end.

Fixpoint upto_last_close (s : string) : option string :=
  match s with
  | EmptyString => None
  | String c s' =>
      match upto_last_close s' with
      | Some m => Some (String c m)
      | None => if (c =? "}")%char then Some (String c EmptyString) else None
      end
  end.

Definition jsonMatch (text : string) : option string :=
  match from_first_open text with
  | Some body =>
      match upto_last_close body with
      | Some m => Some (String "{" m)
      | None => None
      end
  | None => None
  end.

(** Lines 155-161 of [extractTaskFromSpeech]: from the text of the reply
    to the returned value. *)
Definition parseReply (raw : string) : outcome json :=
  let text := trim raw in
  match jsonMatch text with
  | Some m => JSON_parse m
  | None => Threw (Error "Could not parse AI response")
  end.

(** [extractTaskFromSpeech(transcript)]. [service transcript] is the
    outcome of the request to the extraction service for this transcript:
    the text of the first content block of the reply, or the error thrown
    on the way. *)
Definition extractTaskFromSpeech (service : string -> outcome string)
    (transcript : string) : outcome json :=
  match service transcript with
  | Returned raw => parseReply raw
  | Threw e => Threw e
  end.

(** The first well-formed JSON object embedded in a reply, as the
    specification words it: the object that starts at the leftmost
    position at which an object can be read. *)
Fixpoint firstJsonObject_from (l : list ascii) : option json :=
  match l with
  | [] => None
  | c :: l' =>
      if (c =? "{")%char then
        match parse_value (S (2 * List.length l)) l with
        | Ok v _ => Some v
        | _ => firstJsonObject_from l'
        end
      else firstJsonObject_from l'
  end.

Definition firstJsonObject (reply : string) : option json :=
  firstJsonObject_from (list_ascii_of_string reply).

(** The object the dialog works with: the value returned by
    [extractTaskFromSpeech], read through the five properties the program
    uses, each a string or absent. *)
Record TaskData : Type := mkTaskData {
  td_error : option string;
  td_task : option string;
  td_priority : option string;
  td_status : option string;
  td_dueDate : option string
}.

(** A property of a parsed object as a string or absent; [None] when it
    holds anything else. *)
Definition stringProperty (key : string) (members : list (list N * json))
    : option (option string) :=
  match lookup (units_of_string key) members with
  | None => Some None
  | Some (JString u) =>
      match string_of_units u with
      | Some s => Some (Some s)
      | None => None
      end
  | Some _ => None
  end.

Definition taskData_of_json (v : json) : option TaskData :=
  match v with
  | JObject ms =>
      match stringProperty "error" ms, stringProperty "task" ms,
            stringProperty "priority" ms, stringProperty "status" ms,
            stringProperty "dueDate" ms with
      | Some e, Some t, Some p, Some s, Some d => Some (mkTaskData e t p s d)
      | _, _, _, _, _ => None
      end
  | _ => None
  end.

(* ================================================================== *)
(** ** Voice dialog: TwiML, process state and the route handlers *)
(* ================================================================== *)

Record GatherAttrs : Type := mkGather {
  g_input : option string;
  g_action : string;
  g_numDigits : option nat;
  g_speechTimeout : option string;
  g_language : option string;
  g_timeout : option nat
}.

Record RecordAttrs : Type := mkRecord {
  r_action : string;
  r_maxLength : nat;
  r_transcribe : bool;
  r_transcribeCallback : option string;
  r_playBeep : bool;
  r_timeout : nat
}.

(** TwiML verbs in document order. Every [Say] uses the voice
    Polly.Matthew and every action the method POST; a [Gather] carries the
    texts of the prompts nested in it. *)
Inductive Verb : Type :=
| Say (text : string)
| Gather (attrs : GatherAttrs) (prompts : list string)
| Record_ (attrs : RecordAttrs)
| Redirect (url : string)
| Hangup.

Inductive Response : Type :=
| TwiML (verbs : list Verb)
| SendStatus (code : nat).

(** The fields of a webhook request body the handlers read. *)
Record Body : Type := mkBody {
  Digits : option string;
  SpeechResult : option string;
  TranscriptionText : option string
}.

(** A row as sent to the sheet: task, priority, status, due date. *)
Definition Row : Type := list (option string).

(** What persists between requests: the slot [app.locals.pendingTask]
    ([None] for [undefined] and [null]), the rows the sheet has taken, and
    every append request issued to it. *)
Record World : Type := mkWorld {
  pendingTask : option TaskData;
  sheet : list Row;
  requests : list Row
}.

Definition setPending (p : option TaskData) (w : World) : World :=
  {| pendingTask := p; sheet := sheet w; requests := requests w |}.

Definition rowOf (d : TaskData) : Row :=
  [td_task d; td_priority d; td_status d; td_dueDate d].

(** [addTask(data)]. [ok] tells whether the append request to the sheet
    succeeds; a failure is caught and answered [false]. *)
Definition addTask (ok : bool) (d : TaskData) (w : World) : bool * World :=
  let w' := {| pendingTask := pendingTask w;
               sheet := if ok then (sheet w ++ [rowOf d])%list else sheet w;
               requests := (requests w ++ [rowOf d])%list |} in
  (ok, w').

(** An outbound call requested from the telephony gateway. *)
Record CallRequest : Type := mkCall {
  call_to : string;
  call_from : string;
  call_url : string
}.

Record Env : Type := mkEnv {
  BASE_URL : string;
  MY_PHONE_NUMBER : string;
  TWILIO_PHONE_NUMBER : string
}.

(** [v === s] for a string-or-undefined [v]. *)
Definition strictEq (v : option string) (s : string) : bool :=
  match v with
  | Some x => (x =? s)%string
  | None => false
  end.

(** The accept and reject signals read by the confirmation turn. *)
Definition speechOf (body : Body) : string :=
  toLowerCase (or_else (SpeechResult body) "").

Definition confirmed (body : Body) : bool :=
  strictEq (Digits body) "1" || includes (speechOf body) "yes"
  || includes (speechOf body) "confirm".

Definition denied (body : Body) : bool :=
  strictEq (Digits body) "2" || includes (speechOf body) "no"
  || includes (speechOf body) "cancel".

Section Dialog.
Context `{Host} (env : Env).

Definition url (path : string) : string := BASE_URL env ++ path.

Definition noTasksMessage : string :=
  "Good morning Jason! You have no tasks due in the next 5 days. Have a great day!".

(** The sentences appended by [tasks.forEach((t, i) => ...)], from index
    [i] on. *)
Fixpoint rundown (i : nat) (tasks : list Task) : string :=
  match tasks with
  | [] => ""
  | t :: rest =>
      let dayName := toLocaleDateString (Date_of_string (dueDate t)) in
      "Task " ++ nat_to_string (i + 1) ++ ": " ++ task t
      ++ ". Priority: " ++ priority t ++ ". Due: " ++ dayName
      ++ ". Status: " ++ status t ++ ". " ++ rundown (S i) rest
  end.

(** The TwiML built by the handler of [/voice/morning-briefing] from the
    due tasks. *)
Definition briefing (tasks : list Task) : list Verb :=
  if (List.length tasks =? 0)%nat then
    [Say noTasksMessage; Hangup]
  else
    let message :=
      "Good morning Jason! You have " ++ nat_to_string (List.length tasks)
      ++ " task" ++ (if (1 <? List.length tasks)%nat then "s" else "")
      ++ " coming up in the next 5 days. Here's your rundown. "
      ++ rundown 0 tasks ++ "That's your lineup. Go crush it today!" in
    [Say message;
     Gather (mkGather None (url "/voice/morning-choice") (Some 1%nat) None None (Some 5%nat))
       ["Press 1 if you'd like to add a new task, or just hang up to go about your day."];
     Say "Alright, have a productive day Jason!";
     Hangup].

Definition morning_briefing (response : outcome (option (list (list string))))
    (now now' : Z) : Response :=
  TwiML (briefing (getUpcomingTasks (Some 5) response now now')).

(** [makeMorningCall]: the calls requested from the gateway. An error of
    the gateway is caught and logged. *)
Definition makeMorningCall (response : outcome (option (list (list string))))
    (now now' : Z) : list CallRequest :=
  let tasks := getUpcomingTasks (Some 5) response now now' in
  if (List.length tasks =? 0)%nat then []
  else [mkCall (MY_PHONE_NUMBER env) (TWILIO_PHONE_NUMBER env) (url "/voice/morning-briefing")].

Definition morning_choice (body : Body) : Response :=
  if strictEq (Digits body) "1" then
    TwiML
      [Say "Tell me about the task you'd like to add. Include the task name, priority if you have one, and when it's due.";
       Record_ (mkRecord (url "/voice/process-task") 30 true
                  (Some (url "/voice/transcription-callback")) true 3)]
  else TwiML [Say "Have a great day!"; Hangup].

Definition inbound : Response :=
  TwiML
    [Say "Hey Jason! Ready to add a task. Tell me the task, priority, and due date after the beep. For example, say: Finish the Q3 report, high priority, due next Wednesday.";
     Record_ (mkRecord (url "/voice/process-task") 30 false None true 3);
     Say "I didn't catch anything. Let's try again.";
     Redirect (url "/voice/inbound")].

Definition inbound_speech : Response :=
  TwiML
    [Say "Hey Jason! Tell me about the task you want to add.";
     Gather (mkGather (Some "speech") (url "/voice/process-speech") None
               (Some "auto") (Some "en-US") None) [];
     Say "I didn't catch that. Let's try again.";
     Redirect (url "/voice/inbound-speech")].

Definition confirmGather : Verb :=
  Gather (mkGather (Some "speech dtmf") (url "/voice/confirm-task") (Some 1%nat)
            (Some "auto") None (Some 5%nat))
    ["Press 1 or say yes to confirm. Press 2 or say no to try again."].

(** The read-back of a draft. *)
Definition readBack (taskData : TaskData) : string :=
  let dueDateStr := toLocaleDateString (Date_of_value (td_dueDate taskData)) in
  "Got it. Here's what I heard: " ++ template (td_task taskData)
  ++ ". Priority: " ++ template (td_priority taskData)
  ++ ". Due: " ++ dueDateStr ++ ".".

(** Handler of [/voice/process-speech]. [extract] is
    [extractTaskFromSpeech] as the handler sees it: what the call returns
    or throws for a transcript. *)
Definition process_speech (extract : string -> outcome TaskData)
    (body : Body) (w : World) : Response * World :=
  let retry :=
    (TwiML [Say "I didn't catch that. Let's try again.";
            Redirect (url "/voice/inbound-speech")], w) in
  match SpeechResult body with
  | None => retry
  | Some transcript =>
      if negb (truthy (Some transcript)) then retry
      else
        match extract transcript with
        | Returned taskData =>
            if truthy (td_error taskData) then
              (TwiML [Say "I couldn't understand that as a task. Let's try again.";
                      Redirect (url "/voice/inbound-speech")], w)
            else
              (TwiML [Say (readBack taskData);
                      confirmGather;
                      Say "I'll save that for you.";
                      Redirect (url "/voice/auto-confirm")],
               setPending (Some taskData) w)
        | Threw _ =>
            (TwiML [Say "I had trouble processing that. Let's try again.";
                    Redirect (url "/voice/inbound-speech")], w)
        end
  end.

Definition addAnotherGather : Verb :=
  Gather (mkGather (Some "speech dtmf") (url "/voice/add-another") (Some 1%nat)
            (Some "auto") None (Some 5%nat))
    ["Press 1 or say yes to add another. Otherwise, hang up or press 2."].

(** Handler of [/voice/confirm-task]. [ok] tells whether an append
    request made during this turn succeeds. *)
Definition confirm_task (ok : bool) (body : Body) (w : World) : Response * World :=
  let '(verbs, w1) :=
    match confirmed body, pendingTask w with
    | true, Some pending =>
        let '(success, w1) := addTask ok pending w in
        if success then
          ([Say "Task saved! Would you like to add another task?";
            addAnotherGather;
            Say "Alright, have a great day Jason!";
            Hangup], w1)
        else
          ([Say "Sorry, I had trouble saving that. Please try again later.";
            Hangup], w1)
    | _, _ =>
        if denied body then
          ([Say "No problem. Let's try again.";
            Redirect (url "/voice/inbound-speech")], w)
        else
          match pendingTask w with
          | Some pending =>
              let '(_, w1) := addTask ok pending w in
              ([Say "Task saved! Have a great day Jason!"; Hangup], w1)
          | None => ([Hangup], w)
          end
    end in
  (TwiML verbs, setPending None w1).

(** Handler of [/voice/auto-confirm]. *)
Definition auto_confirm (ok : bool) (w : World) : Response * World :=
  match pendingTask w with
  | Some pending =>
      let '(_, w1) := addTask ok pending w in
      (TwiML [Say "Task saved! Have a great day Jason!"; Hangup], setPending None w1)
  | None => (TwiML [Hangup], w)
  end.

Definition add_another (body : Body) : Response :=
  if strictEq (Digits body) "1" || includes (speechOf body) "yes" then
    TwiML [Redirect (url "/voice/inbound-speech")]
  else TwiML [Say "Have a great day Jason!"; Hangup].

Definition process_task : Response :=
  TwiML
    [Say "Got your recording. I'll process it and add the task. You'll see it in your sheet shortly. Goodbye!";
     Hangup].

(** Handler of [/voice/transcription-callback]. *)
Definition transcription_callback (extract : string -> outcome TaskData) (ok : bool)
    (body : Body) (w : World) : Response * World :=
  match TranscriptionText body with
  | None => (SendStatus 200, w)
  | Some transcript =>
      if truthy (Some transcript) then
        match extract transcript with
        | Returned taskData =>
            if negb (truthy (td_error taskData)) then
              let '(_, w1) := addTask ok taskData w in (SendStatus 200, w1)
            else (SendStatus 200, w)
        | Threw _ => (SendStatus 200, w)
        end
      else (SendStatus 200, w)
  end.

(** The confirmation state is presented: the response gathers the
    caller's yes or no for [/voice/confirm-task]. *)
Definition presentsConfirmation (r : Response) : Prop :=
  match r with
  | TwiML verbs => In confirmGather verbs
  | SendStatus _ => False
  end.

(** The call ends: the response is spoken text followed by a hang-up,
    with nothing that leads to a further turn. *)
Fixpoint endsCall (verbs : list Verb) : Prop :=
  match verbs with
  | [Hangup] => True
  | Say _ :: rest => endsCall rest
  | _ => False
  end.

(** One request of the gateway to a handler that reads or writes the
    process state, with what the collaborators answer during it. *)
Inductive Turn : Type :=
| ProcessSpeech (extract : string -> outcome TaskData) (body : Body)
| ConfirmTask (ok : bool) (body : Body)
| AutoConfirm (ok : bool)
| TranscriptionCallback (extract : string -> outcome TaskData) (ok : bool) (body : Body).

Definition turn (t : Turn) (w : World) : Response * World :=
  match t with
  | ProcessSpeech extract body => process_speech extract body w
  | ConfirmTask ok body => confirm_task ok body w
  | AutoConfirm ok => auto_confirm ok w
  | TranscriptionCallback extract ok body => transcription_callback extract ok body w
  end.

(** The state after a sequence of turns. *)
Definition run (turns : list Turn) (w : World) : World :=
  fold_left (fun w t => snd (turn t w)) turns w.



End Dialog.

(** A draft the service extracted: the reply carries no truthy [error]. *)
Definition isDraft (d : TaskData) : Prop := truthy (td_error d) = false.

(** The order the scheduler promises: by priority rank, and by due date
    among tasks of equal rank. *)
Definition dueOrder `{Host} (a b : Task) : Prop :=
  rank a < rank b
  \/ (rank a = rank b
      /\ Date_le (Date_of_string (dueDate a)) (Date_of_string (dueDate b)) = true).

(** The lower-cased priority is not the name of a property that
    [priorityOrder] inherits from [Object.prototype]. *)
Definition ownPriority (t : Task) : bool :=
  match priorityOrder (toLowerCase (priority t)) with
  | Some (Number _) | None => true
  | Some _ => false
  end.

(** The tasks on which the comparator of the sort is consistent. *)
Definition comparable `{Host} (t : Task) : Prop :=
  ownPriority t = true /\ exists d, Date_of_string (dueDate t) = Some d.

(** The character [c] occurs in [s]. *)
Fixpoint has (c : ascii) (s : string) : bool :=
  match s with
  | EmptyString => false
  | String d s' => (c =? d)%char || has c s'
  end.

(** A JSON text written without a quote character in the source: every
    apostrophe of [s] stands for a double quote. *)
Fixpoint withQuotes (s : string) : string :=
  match s with
  | EmptyString => EmptyString
  | String c s' => String (if (c =? "'")%char then Json.dquote else c) (withQuotes s')
  end.

(** Inputs used by the examples. *)
Module Sample.

Definition monday7am : Z := 1739196000000.

Definition passport : Task :=
  mkTask 2 "Renew passport" "constructor" "Not Started" "2025-02-11".

Definition taxes : Task :=
  mkTask 3 "File taxes" "High" "Not Started" "2025-02-12".

Definition report : Task :=
  mkTask 4 "Finish Q3 report" "Low" "Completed" "2025-02-11".

Definition someday : Task :=
  mkTask 5 "Clean garage" "Medium" "In Progress" "next week".

Definition milk : TaskData :=
  mkTaskData None (Some "Buy milk") (Some "High") (Some "Not Started") (Some "2025-02-12").

Definition env : Env :=
  mkEnv "https://task-caller.example" "+13035550100" "+13035550199".

Definition idle : World := mkWorld None [] [].

Definition pendingMilk : World := mkWorld (Some milk) [] [].

(** An extraction service that returns [milk] for every transcript. *)
Definition extractMilk (transcript : string) : outcome TaskData := Returned milk.

(** A reply that carries one JSON object and, after it, a remark with a
    closing brace in it. *)
Definition chattyReply : string :=
  withQuotes "{'task':'Buy milk','priority':'High','status':'Not Started','dueDate':'2025-02-12'} (fields as requested: {task, priority, status, dueDate})".

Definition fencedReply : string :=
  withQuotes "```json
{'task':'Buy milk','priority':'High','status':'Not Started','dueDate':'2025-02-12'}
```".

Definition milkJson : json :=
  JObject
    [(units_of_string "task", JString (units_of_string "Buy milk"));
     (units_of_string "priority", JString (units_of_string "High"));
     (units_of_string "status", JString (units_of_string "Not Started"));
     (units_of_string "dueDate", JString (units_of_string "2025-02-12"))].

End Sample.

(* ================================================================== *)
(** ** Utility endpoint and schedule *)
(* ================================================================== *)

(** The answers of [POST /test/add-task]: the status code and what the
    JSON body is built from. *)
Inductive AddTaskReply : Type :=
| MissingText
| NotATask (taskData : TaskData)
| Added (success : bool) (taskData : TaskData)
| ServerError (e : exn).

Definition replyStatus (r : AddTaskReply) : nat :=
  match r with
  | MissingText => 400
  | NotATask _ => 400
  | Added _ _ => 200
  | ServerError _ => 500
  end.

(** Handler of [POST /test/add-task]. [text] is the [text] field of the
    request body. *)
Definition test_add_task (extract : string -> outcome TaskData) (ok : bool)
    (text : option string) (w : World) : AddTaskReply * World :=
  match text with
  | None => (MissingText, w)
  | Some t =>
      if negb (truthy (Some t)) then (MissingText, w)
      else
        match extract t with
        | Returned taskData =>
            if truthy (td_error taskData) then (NotATask taskData, w)
            else
              let '(success, w1) := addTask ok taskData w in
              (Added success taskData, w1)
        | Threw e => (ServerError e, w)
        end
  end.

(** [s.split(sep)] for a one-character separator. *)
Fixpoint String_split (sep : ascii) (s : string) : list string :=
  match s with
  | EmptyString => [EmptyString]
  | String c s' =>
      if (c =? sep)%char then EmptyString :: String_split sep s'
      else
        match String_split sep s' with
        | piece :: pieces => String c piece :: pieces
        | [] => [String c EmptyString]
        end
  end.

(** The cron expression of the morning call. The argument is the
    environment variable [MORNING_CALL_TIME]; unset, it defaults to 07:00.
    The first two pieces of the split are the hour and the minute. *)
Definition cronExpression (MORNING_CALL_TIME : option string) : string :=
  let time := match MORNING_CALL_TIME with Some t => t | None => "07:00" end in
  let pieces := String_split ":" time in
  let hour := nth_error pieces 0 in
  let minute := nth_error pieces 1 in
  template minute ++ " " ++ template hour ++ " * * *".

(** Tasks with the lower-cased priority [k] and the due-date string [d]. *)
Definition sameKey (k d : string) (t : Task) : bool :=
  (toLowerCase (priority t) =? k)%string && (dueDate t =? d)%string.

(* ================================================================== *)
(** * Properties *)
(* ================================================================== *)

(** ** The sort keeps the elements *)

Section SortFacts.
Context {A : Type} (comparefn : A -> A -> option Z).

Lemma insert_In (x a : A) (l : list A) :
  In x (insert comparefn a l) <-> x = a \/ In x l.
Proof.
  induction l as [|y l IH]; simpl.
  - intuition congruence.
  - destruct (SortCompare comparefn a y <=? 0); simpl.
    + intuition congruence.
    + rewrite IH. intuition congruence.
Qed.

Lemma Array_sort_In (x : A) (l : list A) :
  In x (Array_sort comparefn l) <-> In x l.
Proof.
  unfold Array_sort. induction l as [|a l IH]; simpl.
  - tauto.
  - rewrite insert_In, IH. intuition congruence.
Qed.

Lemma insert_Permutation (a : A) (l : list A) :
  Permutation (a :: l) (insert comparefn a l).
Proof.
  induction l as [|y l IH]; simpl.
  - apply Permutation_refl.
  - destruct (SortCompare comparefn a y <=? 0).
    + apply Permutation_refl.
    + eapply perm_trans; [apply perm_swap|]. now apply perm_skip.
Qed.

Lemma Array_sort_Permutation (l : list A) :
  Permutation l (Array_sort comparefn l).
Proof.
  unfold Array_sort. induction l as [|a l IH]; simpl.
  - apply perm_nil.
  - eapply perm_trans; [apply perm_skip, IH|]. apply insert_Permutation.
Qed.

(** With a relation [R] that the comparator decides on the elements of
    the array, and that is total on them, the result is sorted by [R]. *)
Lemma insert_Sorted (R : A -> A -> Prop) (P : A -> Prop)
    (dec : forall x y, P x -> P y -> ((SortCompare comparefn x y <=? 0) = true <-> R x y))
    (total : forall x y, P x -> P y -> R x y \/ R y x)
    (a : A) (l : list A) :
  P a -> Forall P l -> Sorted R l -> Sorted R (insert comparefn a l).
Proof.
  intros Pa Pl Hs. induction Hs as [|y l Hs IH Hd]; simpl.
  - repeat constructor.
  - assert (Py : P y) by now inversion Pl.
    assert (Pl' : Forall P l) by now inversion Pl.
    destruct (SortCompare comparefn a y <=? 0) eqn:E.
    + constructor; [now constructor|]. constructor. now apply dec.
    + assert (Rya : R y a).
      { destruct (total a y Pa Py) as [Hay|Hya]; [|exact Hya].
        apply dec in Hay; congruence. }
      constructor; [now apply IH|].
      destruct l as [|z l]; simpl.
      * now constructor.
      * destruct (SortCompare comparefn a z <=? 0); constructor; [exact Rya|].
        now inversion Hd.
Qed.

Lemma Array_sort_Sorted (R : A -> A -> Prop) (P : A -> Prop)
    (dec : forall x y, P x -> P y -> ((SortCompare comparefn x y <=? 0) = true <-> R x y))
    (total : forall x y, P x -> P y -> R x y \/ R y x)
    (l : list A) :
  Forall P l -> Sorted R (Array_sort comparefn l).
Proof.
  unfold Array_sort. induction 1 as [|a l Pa Pl IH]; simpl.
  - constructor.
  - apply insert_Sorted with (P := P); auto.
    apply Forall_forall. intros x Hx.
    apply (proj1 (Array_sort_In x l)) in Hx.
    now apply (proj1 (Forall_forall P l) Pl).
Qed.

End SortFacts.

(** ** Due-task scheduler *)

Section SchedulerFacts.
Context `{Host}.

Lemma upcoming_In (days : option Z) (tasks : list Task) (now now' : Z) (t : Task) :
  In t (upcoming days tasks now now') <->
  In t tasks /\
  dueFilter (Some now)
    (Date_plusDays now' (match days with Some d => d | None => 5 end)) t = true.
Proof.
  unfold upcoming. rewrite Array_sort_In. apply filter_In.
Qed.

Lemma dueFilter_completed (now cutoff : option Z) (t : Task) :
  isCompleted t = true -> dueFilter now cutoff t = false.
Proof.
  unfold isCompleted, dueFilter. intros ->. reflexivity.
Qed.

Lemma dueFilter_no_date (now cutoff : option Z) (t : Task) :
  dueDate t = "" \/ Date_of_string (dueDate t) = None ->
  dueFilter now cutoff t = false.
Proof.
  unfold dueFilter. intros [E|E].
  - rewrite E. simpl. now destruct (_ || _).
  - rewrite E. simpl. destruct (_ || _); [reflexivity|]. now destruct (negb _).
Qed.

Lemma dueFilter_window (now cutoff d : Z) (t : Task) :
  isCompleted t = false -> dueDate t <> "" ->
  Date_of_string (dueDate t) = Some d ->
  (dueFilter (Some now) (Some cutoff) t = true <-> now <= d /\ d <= cutoff).
Proof.
  unfold isCompleted, dueFilter. intros -> Hne ->.
  assert (E : truthy (Some (dueDate t)) = true).
  { simpl. apply negb_true_iff. now apply String.eqb_neq. }
  rewrite E. simpl. rewrite andb_true_iff, !Z.leb_le. tauto.
Qed.

(** Whatever the clock reads, [getUpcomingTasks] returns no completed
    task and no task without a valid due date. *)
Lemma upcoming_excludes (days : option Z) (tasks : list Task) (now now' : Z) (t : Task) :
  isCompleted t = true \/ dueDate t = "" \/ Date_of_string (dueDate t) = None ->
  ~ In t (upcoming days tasks now now').
Proof.
  intros Hc Hin. apply upcoming_In in Hin as [_ Hf].
  destruct Hc as [Hc|Hc].
  - rewrite (dueFilter_completed _ _ _ Hc) in Hf. discriminate.
  - rewrite (dueFilter_no_date _ _ _ Hc) in Hf. discriminate.
Qed.

(** C4. A task whose status is, ignoring case, "completed" or "done" is
    in no result of [computeDueTasks], whatever its due date, the window
    and the reference instant. *)
Theorem computeDueTasks_excludes_completed
    (allTasks : list Task) (windowDays : option Z) (referenceInstant : Z) (t : Task) :
  isCompleted t = true ->
  ~ In t (computeDueTasks allTasks windowDays referenceInstant).
Proof.
  intro Hc. unfold computeDueTasks. apply upcoming_excludes. now left.
Qed.

(** C6. A task whose due date is empty, or a string of which [new Date]
    makes an Invalid Date, is in no result of [computeDueTasks]. The
    filter is a total function: it returns a list on every input, an
    unparseable date included. *)
Theorem computeDueTasks_excludes_unparseable
    (allTasks : list Task) (windowDays : option Z) (referenceInstant : Z) (t : Task) :
  dueDate t = "" \/ Date_of_string (dueDate t) = None ->
  exists result, computeDueTasks allTasks windowDays referenceInstant = result
                 /\ ~ In t result.
Proof.
  intro Hd. eexists. split; [reflexivity|].
  unfold computeDueTasks. apply upcoming_excludes. now right.
Qed.

(** C5. A task of the input that is not completed and has a valid due
    date [d] is in the result exactly when [d] is not before the reference
    instant and not after the reference instant plus [windowDays] days;
    both bounds are inclusive. The days are added to the local time of the
    reference instant, a day being 86400000 ms, and the sum is taken back
    to UTC; where local time is UTC shifted by a constant the end of the
    window is the reference instant plus [windowDays] times 86400000 ms.
    The end of the window is supposed to be in the range of Date. Without
    a [windowDays] argument the window is 5 days. *)
Theorem computeDueTasks_window
    (allTasks : list Task) (windowDays referenceInstant d : Z) (t : Task) :
  In t allTasks ->
  isCompleted t = false ->
  dueDate t <> "" ->
  Date_of_string (dueDate t) = Some d ->
  Z.abs (UTC (LocalTime referenceInstant + windowDays * 86400000)) <= 8640000000000000 ->
  (In t (computeDueTasks allTasks (Some windowDays) referenceInstant)
   <-> referenceInstant <= d
       /\ d <= UTC (LocalTime referenceInstant + windowDays * 86400000))
  /\ (forall offset,
        (forall x, LocalTime x = x + offset) -> (forall x, UTC x = x - offset) ->
        UTC (LocalTime referenceInstant + windowDays * 86400000)
        = referenceInstant + windowDays * 86400000)
  /\ computeDueTasks allTasks None referenceInstant
     = computeDueTasks allTasks (Some 5) referenceInstant.
Proof.
  intros Hin Hc Hne Hd Hr. split; [|split; [|reflexivity]].
  - unfold computeDueTasks. rewrite upcoming_In.
    unfold Date_plusDays, TimeClip. change msPerDay with 86400000.
    apply Z.leb_le in Hr. rewrite Hr.
    rewrite (dueFilter_window _ _ d t Hc Hne Hd). tauto.
  - intros offset HL HU. rewrite HL, HU. lia.
Qed.

(** With a clock that moves between the two readings the lower bound is
    taken from the first reading and the window is counted from the
    second. *)
Lemma getUpcomingTasks_window
    (tasks : list Task) (days now now' d cutoff : Z) (t : Task) :
  In t tasks -> isCompleted t = false -> dueDate t <> "" ->
  Date_of_string (dueDate t) = Some d ->
  Date_plusDays now' days = Some cutoff ->
  (In t (upcoming (Some days) tasks now now') <-> now <= d /\ d <= cutoff).
Proof.
  intros Hin Hc Hne Hd Hw. rewrite upcoming_In, Hw.
  rewrite (dueFilter_window _ _ d t Hc Hne Hd). tauto.
Qed.

(** Where local time is UTC shifted by a constant, the window ends
    [windowDays] times 24 hours after the reference instant. *)
Lemma windowEnd_constant_offset (offset referenceInstant windowDays : Z) :
  (forall t, LocalTime t = t + offset) -> (forall t, UTC t = t - offset) ->
  Z.abs (referenceInstant + windowDays * msPerDay) <= 8640000000000000 ->
  windowEnd referenceInstant windowDays = Some (referenceInstant + windowDays * msPerDay).
Proof.
  intros HL HU Hr. unfold windowEnd, Date_plusDays, TimeClip.
  rewrite HL, HU.
  replace (referenceInstant + offset + windowDays * msPerDay - offset)
    with (referenceInstant + windowDays * msPerDay) by lia.
  apply Z.leb_le in Hr. now rewrite Hr.
Qed.

End SchedulerFacts.

(** ** Order of the result *)

Section OrderFacts.
Context `{Host}.

Lemma ownPriority_rank (t : Task) :
  ownPriority t = true ->
  nullish_1 (priorityOrder (toLowerCase (priority t))) = Number (rank t).
Proof.
  unfold ownPriority, rank, priorityOrder.
  destruct (toLowerCase (priority t) =? "high")%string eqn:Eh; [reflexivity|].
  destruct (toLowerCase (priority t) =? "medium")%string eqn:Em.
  { apply String.eqb_eq in Em. rewrite Em. reflexivity. }
  destruct (toLowerCase (priority t) =? "low")%string eqn:El; [reflexivity|].
  destruct (existsb _ _); [discriminate|].
  destruct (toLowerCase (priority t) =? "__proto__")%string; [discriminate|].
  reflexivity.
Qed.

Lemma byPriorityThenDue_decides (a b : Task) :
  comparable a -> comparable b ->
  ((SortCompare byPriorityThenDue a b <=? 0) = true <-> dueOrder a b).
Proof.
  intros [Oa [da Da]] [Ob [db Db]].
  unfold SortCompare, byPriorityThenDue, dueOrder.
  rewrite (ownPriority_rank a Oa), (ownPriority_rank b Ob), Da, Db. simpl.
  destruct (rank a =? rank b) eqn:E; simpl; rewrite Z.leb_le.
  - apply Z.eqb_eq in E. lia.
  - apply Z.eqb_neq in E. lia.
Qed.

Lemma dueOrder_total (a b : Task) :
  comparable a -> comparable b -> dueOrder a b \/ dueOrder b a.
Proof.
  intros [_ [da Da]] [_ [db Db]]. unfold dueOrder. rewrite Da, Db. simpl.
  rewrite !Z.leb_le. lia.
Qed.

Lemma dueOrder_trans (a b c : Task) :
  dueOrder a b -> dueOrder b c -> dueOrder a c.
Proof.
  unfold dueOrder, Date_le.
  destruct (Date_of_string (dueDate a)), (Date_of_string (dueDate b)),
    (Date_of_string (dueDate c)); rewrite ?Z.leb_le; intuition (try discriminate; lia).
Qed.

Lemma dueFilter_valid (now cutoff : option Z) (t : Task) :
  dueFilter now cutoff t = true -> exists d, Date_of_string (dueDate t) = Some d.
Proof.
  unfold dueFilter. destruct (_ || _); [discriminate|].
  destruct (negb _); [discriminate|].
  destruct (Date_of_string (dueDate t)) as [d|]; [eauto|discriminate].
Qed.

(** X5. On tasks whose priority does not name an inherited property of
    [priorityOrder], the result is in the promised order: any two of its
    tasks stand by rank, and by due date within a rank. *)
Lemma computeDueTasks_sorted_own_priorities
    (allTasks : list Task) (windowDays : option Z) (referenceInstant : Z) :
  Forall (fun t => ownPriority t = true) allTasks ->
  StronglySorted dueOrder (computeDueTasks allTasks windowDays referenceInstant).
Proof.
  intro Hown. apply Sorted_StronglySorted.
  { intros a b c. apply dueOrder_trans. }
  unfold computeDueTasks, upcoming.
  apply Array_sort_Sorted with (P := comparable).
  - apply byPriorityThenDue_decides.
  - apply dueOrder_total.
  - apply Forall_forall. intros t Ht. apply filter_In in Ht as [Hin Hf]. split.
    + now apply (proj1 (Forall_forall _ _) Hown).
    + eapply dueFilter_valid, Hf.
Qed.

End OrderFacts.

(** C3. Two tasks due inside the window, the first with the priority
    "constructor", the second with the priority "High". The first ranks as
    Medium and the second as High, yet the result keeps the first before
    the second: [priorityOrder["constructor"]] is the inherited function
    [Object], the difference of the two ranks is NaN, and the sort takes
    the tasks for equal. *)
Theorem computeDueTasks_inherited_priority_unsorted :
  computeDueTasks (H := UtcHost.host) [Sample.passport; Sample.taxes] (Some 5)
    Sample.monday7am = [Sample.passport; Sample.taxes]
  /\ rank Sample.passport = 1 /\ rank Sample.taxes = 0
  /\ ~ dueOrder (H := UtcHost.host) Sample.passport Sample.taxes.
Proof.
  split; [reflexivity|]. split; [reflexivity|]. split; [reflexivity|].
  unfold dueOrder. cbn. intros [Hlt|[Heq _]]; [lia|discriminate].
Qed.

(** ** Extraction client *)

Lemma trim_space_not_brace (c : ascii) :
  is_trim_space c = true -> (c =? "{")%char = false /\ (c =? "}")%char = false.
Proof.
  intro Hs. split.
  - destruct (c =? "{")%char eqn:E; [|reflexivity].
    apply Ascii.eqb_eq in E. subst c. discriminate Hs.
  - destruct (c =? "}")%char eqn:E; [|reflexivity].
    apply Ascii.eqb_eq in E. subst c. discriminate Hs.
Qed.

Lemma trimEnd_cons (c : ascii) (s : string) :
  trimEnd (String c s) =
  match trimEnd s with
  | EmptyString => if is_trim_space c then EmptyString else String c EmptyString
  | r => String c r
  end.
Proof. reflexivity. Qed.

Lemma from_first_open_trimStart (s : string) :
  from_first_open (trimStart s) = from_first_open s.
Proof.
  induction s as [|c s IH]; [reflexivity|].
  simpl. destruct (is_trim_space c) eqn:Es; [|reflexivity].
  destruct (trim_space_not_brace c Es) as [-> _]. exact IH.
Qed.

Lemma from_first_open_trimEnd (s : string) :
  from_first_open (trimEnd s) = option_map trimEnd (from_first_open s).
Proof.
  induction s as [|c s IH]; [reflexivity|].
  rewrite trimEnd_cons. cbn [from_first_open].
  destruct (c =? "{")%char eqn:Ec.
  - cbn [option_map]. destruct (trimEnd s) eqn:Et.
    + destruct (is_trim_space c) eqn:Es.
      * destruct (trim_space_not_brace c Es) as [Hc _]. congruence.
      * cbn [from_first_open]. rewrite Ec. reflexivity.
    + cbn [from_first_open]. rewrite Ec. reflexivity.
  - rewrite <- IH. destruct (trimEnd s) eqn:Et.
    + destruct (is_trim_space c); cbn [from_first_open]; rewrite ?Ec; reflexivity.
    + cbn [from_first_open]. rewrite Ec. reflexivity.
Qed.

Lemma upto_last_close_trimEnd (s : string) :
  upto_last_close (trimEnd s) = upto_last_close s.
Proof.
  induction s as [|c s IH]; [reflexivity|].
  rewrite trimEnd_cons. cbn [upto_last_close]. rewrite <- IH.
  destruct (trimEnd s) eqn:Et.
  - cbn [upto_last_close]. destruct (is_trim_space c) eqn:Es.
    + destruct (trim_space_not_brace c Es) as [_ ->]. reflexivity.
    + reflexivity.
  - reflexivity.
Qed.

(** Trimming does not move the match: the characters it strips are
    not braces. *)
Lemma jsonMatch_trim (s : string) : jsonMatch (trim s) = jsonMatch s.
Proof.
  unfold jsonMatch, trim.
  rewrite from_first_open_trimEnd, from_first_open_trimStart.
  destruct (from_first_open s) as [body|]; [|reflexivity].
  simpl. now rewrite upto_last_close_trimEnd.
Qed.

Lemma from_first_open_Some (s body : string) :
  from_first_open s = Some body ->
  exists pre, s = pre ++ String "{" body /\ has "{" pre = false.
Proof.
  revert body. induction s as [|c s IH]; intros body; [discriminate|].
  cbn [from_first_open]. destruct (c =? "{")%char eqn:Ec.
  - intros [= <-]. apply Ascii.eqb_eq in Ec. subst c. now exists EmptyString.
  - intros Hb. destruct (IH _ Hb) as [pre [-> Hp]].
    exists (String c pre). split; [reflexivity|].
    cbn [has]. rewrite Ascii.eqb_sym, Ec. exact Hp.
Qed.

Lemma from_first_open_None (s : string) :
  from_first_open s = None -> has "{" s = false.
Proof.
  induction s as [|c s IH]; [reflexivity|].
  cbn [from_first_open has]. destruct (c =? "{")%char eqn:Ec; [discriminate|].
  intro Hn. rewrite Ascii.eqb_sym, Ec. now apply IH.
Qed.

Lemma upto_last_close_Some (s m : string) :
  upto_last_close s = Some m ->
  exists mid post, m = mid ++ String "}" EmptyString
                   /\ s = mid ++ String "}" post /\ has "}" post = false.
Proof.
  revert m. induction s as [|c s IH]; intros m; [discriminate|].
  cbn [upto_last_close]. destruct (upto_last_close s) as [m'|] eqn:Eu.
  - intros [= <-]. destruct (IH _ eq_refl) as [mid [post [-> [-> Hp]]]].
    now exists (String c mid), post.
  - destruct (c =? "}")%char eqn:Ec; [|discriminate].
    intros [= <-]. apply Ascii.eqb_eq in Ec. subst c.
    exists EmptyString, s. repeat split.
    clear IH. induction s as [|d s IH]; [reflexivity|].
    cbn [upto_last_close] in Eu. destruct (upto_last_close s); [discriminate|].
    destruct (d =? "}")%char eqn:Ed; [discriminate|].
    cbn [has]. rewrite Ascii.eqb_sym, Ed. now apply IH.
Qed.

Lemma upto_last_close_None (s : string) :
  upto_last_close s = None -> has "}" s = false.
Proof.
  induction s as [|d s IH]; [reflexivity|].
  cbn [upto_last_close has]. destruct (upto_last_close s); [discriminate|].
  destruct (d =? "}")%char eqn:Ed; [discriminate|].
  intros _. rewrite Ascii.eqb_sym, Ed. now apply IH.
Qed.

(** *** The parser does not run out of fuel *)

Ltac break_match :=
  match goal with
  | |- context [match ?x with _ => _ end] => destruct x eqn:?
  end.

Lemma skip_ws_length (l : list ascii) :
  (List.length (skip_ws l) <= List.length l)%nat.
Proof.
  induction l as [|c l IH]; simpl; [lia|]. destruct (is_ws c); simpl; lia.
Qed.

Lemma parse_chars_length (l : list ascii) :
  forall acc s r, parse_chars l acc = Some (s, r) ->
  (List.length r < List.length l)%nat.
Proof.
  assert (G : forall n l, (List.length l <= n)%nat ->
              forall acc s r, parse_chars l acc = Some (s, r) ->
              (List.length r < List.length l)%nat).
  { clear l. induction n as [|n IH]; intros l Hl acc s r.
    - destruct l; [discriminate|simpl in Hl; lia].
    - destruct l as [|c l']; cbn [parse_chars]; [discriminate|].
      simpl in Hl.
      repeat break_match; intro Hp; try discriminate; subst; simpl in *;
        try (injection Hp as <- <-; lia);
        try (apply IH in Hp; simpl in *; lia). }
  intros acc s r. apply (G (List.length l)). lia.
Qed.

Lemma span_digits_length (l ds r : list ascii) :
  span_digits l = (ds, r) ->
  (List.length r + List.length ds = List.length l)%nat.
Proof.
  revert ds r. induction l as [|c l IH]; intros ds r; simpl.
  - intros [= <- <-]. reflexivity.
  - destruct (is_digit c).
    + destruct (span_digits l) as [ds' r'] eqn:E. intros [= <- <-].
      specialize (IH _ _ eq_refl). simpl. lia.
    + intros [= <- <-]. simpl. lia.
Qed.

Lemma parse_int_length (l i r : list ascii) :
  parse_int l = Some (i, r) -> (List.length r < List.length l)%nat.
Proof.
  unfold parse_int. destruct l as [|c l']; [discriminate|].
  destruct (c =? "0")%char.
  - intros [= <- <-]. simpl. lia.
  - destruct (is_digit c) eqn:Ed; [|discriminate].
    cbn [span_digits]. rewrite Ed.
    destruct (span_digits l') as [ds r'] eqn:E. intros [= <- <-].
    apply span_digits_length in E. simpl. lia.
Qed.

Lemma parse_frac_length (l f r : list ascii) :
  parse_frac l = Some (f, r) -> (List.length r <= List.length l)%nat.
Proof.
  unfold parse_frac. destruct l as [|c l']; [intros [= <- <-]; simpl; lia|].
  destruct (c =? ".")%char.
  - destruct (span_digits l') as [ds r'] eqn:E. apply span_digits_length in E.
    destruct ds; [discriminate|]. intros [= <- <-]. simpl in *. lia.
  - intros [= <- <-]. lia.
Qed.

Lemma parse_exp_length (l e r : list ascii) :
  parse_exp l = Some (e, r) -> (List.length r <= List.length l)%nat.
Proof.
  unfold parse_exp. destruct l as [|c l']; [intros [= <- <-]; simpl; lia|].
  destruct (_ || _).
  - assert (G : forall sign l1, (List.length l1 <= List.length l')%nat ->
                match span_digits l1 with
                | ([], _) => None
                | (ds, r0) => Some (c :: (sign ++ ds)%list, r0)
                end = Some (e, r) -> (List.length r <= List.length (c :: l'))%nat).
    { intros sign l1 Hl. destruct (span_digits l1) as [ds r'] eqn:E.
      apply span_digits_length in E. destruct ds; [discriminate|].
      intros [= <- <-]. simpl in *. lia. }
    destruct l' as [|s l1].
    + apply G. lia.
    + destruct (_ || _); apply G; simpl; lia.
  - intros [= <- <-]. lia.
Qed.

Lemma parse_number_length (l lexeme r : list ascii) :
  parse_number l = Some (lexeme, r) -> (List.length r < List.length l)%nat.
Proof.
  unfold parse_number.
  assert (G : forall sign l0, (List.length l0 <= List.length l)%nat ->
              match parse_int l0 with
              | None => None
              | Some (i, l1) =>
                  match parse_frac l1 with
                  | None => None
                  | Some (f, l2) =>
                      match parse_exp l2 with
                      | None => None
                      | Some (e, l3) => Some ((sign ++ i ++ f ++ e)%list, l3)
                      end
                  end
              end = Some (lexeme, r) -> (List.length r < List.length l)%nat).
  { intros sign l0 Hl.
    destruct (parse_int l0) as [[i l1]|] eqn:Ei; [|discriminate].
    destruct (parse_frac l1) as [[f l2]|] eqn:Ef; [|discriminate].
    destruct (parse_exp l2) as [[e l3]|] eqn:Ee; [|discriminate].
    intros [= <- <-].
    apply parse_int_length in Ei. apply parse_frac_length in Ef.
    apply parse_exp_length in Ee. lia. }
  destruct l as [|c l'].
  - apply G. lia.
  - destruct (c =? "-")%char; apply G; simpl; lia.
Qed.

Lemma strip_prefix_length (w : string) (l r : list ascii) :
  strip_prefix w l = Some r -> (List.length r + String.length w = List.length l)%nat.
Proof.
  revert l. induction w as [|c w IH]; intros l; simpl.
  - intros [= <-]. lia.
  - destruct l as [|d l]; [discriminate|]. destruct (c =? d)%char; [|discriminate].
    intro Hs. apply IH in Hs. simpl. lia.
Qed.

Ltac bad_case := split; [discriminate | intros ? ? ?; discriminate].

Lemma parse_fuel (fuel : nat) :
  (forall l, (2 * List.length l < fuel)%nat ->
     parse_value fuel l <> OutOfFuel
     /\ forall v r, parse_value fuel l = Ok v r -> (List.length r < List.length l)%nat)
  /\ (forall l acc, (2 * List.length l < fuel)%nat ->
     parse_members fuel l acc <> OutOfFuel
     /\ forall v r, parse_members fuel l acc = Ok v r ->
                    (List.length r < List.length l)%nat)
  /\ (forall l acc, (2 * List.length l + 1 < fuel)%nat ->
     parse_elements fuel l acc <> OutOfFuel
     /\ forall v r, parse_elements fuel l acc = Ok v r ->
                    (List.length r < List.length l)%nat).
Proof.
  induction fuel as [|f [IHv [IHm IHe]]].
  { repeat split; intros; lia. }
  split; [|split].
  - (* a value *)
    intros l Hl. cbn [parse_value].
    destruct l as [|c l1]; [bad_case|]. cbn [List.length] in Hl.
    destruct (c =? "{")%char.
    { destruct (skip_ws l1) as [|d l2] eqn:Ew; [bad_case|].
      pose proof (skip_ws_length l1) as Hw. rewrite Ew in Hw. simpl in Hw.
      destruct (d =? "}")%char.
      - split; [discriminate|]. intros v r [= <- <-]. simpl. lia.
      - destruct (IHm (d :: l2) []) as [Hn Hr]; [simpl; lia|].
        split; [exact Hn|]. intros v r Hp. apply Hr in Hp. simpl in *. lia. }
    destruct (c =? "[")%char.
    { destruct (skip_ws l1) as [|d l2] eqn:Ew; [bad_case|].
      pose proof (skip_ws_length l1) as Hw. rewrite Ew in Hw. simpl in Hw.
      destruct (d =? "]")%char.
      - split; [discriminate|]. intros v r [= <- <-]. simpl. lia.
      - destruct (IHe (d :: l2) []) as [Hn Hr]; [simpl; lia|].
        split; [exact Hn|]. intros v r Hp. apply Hr in Hp. simpl in *. lia. }
    destruct (c =? dquote)%char.
    { destruct (parse_chars l1 []) as [[s l2]|] eqn:Es; [|bad_case].
      apply parse_chars_length in Es.
      split; [discriminate|]. intros v r [= <- <-]. simpl. lia. }
    destruct (strip_prefix "true" (c :: l1)) as [r1|] eqn:E1.
    { apply strip_prefix_length in E1.
      split; [discriminate|]. intros v r [= <- <-]. simpl in *. lia. }
    destruct (strip_prefix "false" (c :: l1)) as [r2|] eqn:E2.
    { apply strip_prefix_length in E2.
      split; [discriminate|]. intros v r [= <- <-]. simpl in *. lia. }
    destruct (strip_prefix "null" (c :: l1)) as [r3|] eqn:E3.
    { apply strip_prefix_length in E3.
      split; [discriminate|]. intros v r [= <- <-]. simpl in *. lia. }
    destruct (parse_number (c :: l1)) as [[lexeme r4]|] eqn:En; [|bad_case].
    apply parse_number_length in En.
    split; [discriminate|]. intros v r [= <- <-]. exact En.
  - (* the members of an object *)
    intros l acc Hl. cbn [parse_members].
    destruct l as [|c l1]; [bad_case|]. cbn [List.length] in Hl.
    destruct (c =? dquote)%char; [|bad_case].
    destruct (parse_chars l1 []) as [[k l2]|] eqn:Ek; [|bad_case].
    apply parse_chars_length in Ek.
    destruct (skip_ws l2) as [|d l3] eqn:Ew2; [bad_case|].
    pose proof (skip_ws_length l2) as Hw2. rewrite Ew2 in Hw2. simpl in Hw2.
    destruct (d =? ":")%char; [|bad_case].
    pose proof (skip_ws_length l3) as Hw3.
    destruct (IHv (skip_ws l3)) as [Hn Hr]; [lia|].
    destruct (parse_value f (skip_ws l3)) as [v l4| |] eqn:Ev;
      [|bad_case|contradiction].
    specialize (Hr v l4 eq_refl).
    destruct (skip_ws l4) as [|e l5] eqn:Ew4; [bad_case|].
    pose proof (skip_ws_length l4) as Hw4. rewrite Ew4 in Hw4. simpl in Hw4.
    pose proof (skip_ws_length l5) as Hw5.
    destruct (e =? ",")%char.
    { destruct (IHm (skip_ws l5) ((k, v) :: acc)) as [Hn' Hr']; [lia|].
      split; [exact Hn'|]. intros v' r Hp. apply Hr' in Hp. simpl. lia. }
    destruct (e =? "}")%char; [|bad_case].
    split; [discriminate|]. intros v' r [= <- <-]. simpl. lia.
  - (* the elements of an array *)
    intros l acc Hl. cbn [parse_elements].
    destruct (IHv l) as [Hn Hr]; [lia|].
    destruct (parse_value f l) as [v l1| |] eqn:Ev; [|bad_case|contradiction].
    specialize (Hr v l1 eq_refl).
    destruct (skip_ws l1) as [|e l2] eqn:Ew1; [bad_case|].
    pose proof (skip_ws_length l1) as Hw1. rewrite Ew1 in Hw1. simpl in Hw1.
    pose proof (skip_ws_length l2) as Hw2.
    destruct (e =? ",")%char.
    { destruct (IHe (skip_ws l2) (v :: acc)) as [Hn' Hr']; [lia|].
      split; [exact Hn'|]. intros v' r Hp. apply Hr' in Hp. lia. }
    destruct (e =? "]")%char; [|bad_case].
    split; [discriminate|]. intros v' r [= <- <-]. lia.
Qed.

(** [JSON_parse] never answers for lack of fuel: a SyntaxError is a syntax
    error of the text. *)
Lemma JSON_parse_fuel (s : string) :
  let l := list_ascii_of_string s in
  parse_value (S (2 * List.length l)) (skip_ws l) <> OutOfFuel.
Proof.
  intro l. apply (parse_fuel (S (2 * List.length l))).
  pose proof (skip_ws_length l). lia.
Qed.

Lemma parse_members_object (fuel : nat) :
  forall l acc v r, parse_members fuel l acc = Ok v r -> exists ms, v = JObject ms.
Proof.
  induction fuel as [|f IH]; intros l acc v r; cbn [parse_members]; [discriminate|].
  repeat break_match; intro Hp; try discriminate.
  - eapply IH, Hp.
  - injection Hp as <- <-. eauto.
Qed.

(** Parsing a text that starts with an opening brace returns an object or
    throws. *)
Lemma JSON_parse_object (s : string) (v : json) :
  JSON_parse (String "{" s) = Returned v -> exists ms, v = JObject ms.
Proof.
  unfold JSON_parse. cbn [list_ascii_of_string skip_ws].
  change (is_ws "{") with false. cbv iota.
  destruct (parse_value _ _) as [v' rest| |] eqn:Ev; [|discriminate|discriminate].
  destruct (skip_ws rest); [|discriminate]. intros [= <-].
  cbn [parse_value] in Ev. change ("{" =? "{")%char with true in Ev. cbv iota in Ev.
  destruct (skip_ws (list_ascii_of_string s)) as [|d l2]; [discriminate|].
  destruct (d =? "}")%char.
  - injection Ev as <- <-. eauto.
  - eapply parse_members_object, Ev.
Qed.

Lemma JSON_parse_throws (s : string) (e : exn) :
  JSON_parse s = Threw e -> e = SyntaxError.
Proof.
  unfold JSON_parse. destruct (parse_value _ _); [|now intros [= <-]..].
  destruct (skip_ws rest); [discriminate|now intros [= <-]].
Qed.

(** C2. What the client makes of a reply. Either the reply has an
    opening brace with a closing brace somewhere after it: then the client
    parses the text from the first opening brace to the last closing brace
    of the whole reply, returns the object it denotes, and throws
    SyntaxError if that text is not well-formed JSON. Or the reply has no
    opening brace, or no closing brace after the first opening one: then
    the client throws the error "Could not parse AI response". Either
    failure is a thrown error and so differs from any returned value, a
    returned error object included. *)
Theorem parseReply_outcome (raw : string) :
  (exists pre mid post,
      raw = pre ++ String "{" (mid ++ String "}" post)
      /\ has "{" pre = false /\ has "}" post = false
      /\ parseReply raw = JSON_parse (String "{" (mid ++ String "}" EmptyString))
      /\ (forall v, parseReply raw = Returned v -> exists ms, v = JObject ms)
      /\ (forall e, parseReply raw = Threw e -> e = SyntaxError))
  \/ ((has "{" raw = false
       \/ exists pre body,
            raw = pre ++ String "{" body /\ has "{" pre = false /\ has "}" body = false)
      /\ parseReply raw = Threw (Error "Could not parse AI response")).
Proof.
  unfold parseReply. rewrite jsonMatch_trim. unfold jsonMatch.
  destruct (from_first_open raw) as [body|] eqn:Eo.
  - destruct (from_first_open_Some _ _ Eo) as [pre [-> Hpre]].
    destruct (upto_last_close body) as [m|] eqn:Ec.
    + left. destruct (upto_last_close_Some _ _ Ec) as [mid [post [-> [-> Hpost]]]].
      exists pre, mid, post. repeat split; auto.
      * intros v Hv. eapply JSON_parse_object, Hv.
      * intros e He. eapply JSON_parse_throws, He.
    + right. split; [|reflexivity]. right. exists pre, body.
      repeat split; auto. now apply upto_last_close_None.
  - right. split; [|reflexivity]. left. now apply from_first_open_None.
Qed.

(** C2, counterexample. The reply opens with a well-formed JSON object
    and goes on with a remark that has braces in it. The first
    well-formed object of the reply is the draft; the client throws
    SyntaxError, because the text it parses runs to the last closing
    brace. *)
Lemma parseReply_misses_first_object :
  firstJsonObject Sample.chattyReply = Some Sample.milkJson
  /\ parseReply Sample.chattyReply = Threw SyntaxError.
Proof. split; vm_compute; reflexivity. Qed.

Lemma extractTaskFromSpeech_reply (service : string -> outcome string)
    (transcript raw : string) :
  service transcript = Returned raw ->
  extractTaskFromSpeech service transcript = parseReply raw.
Proof. unfold extractTaskFromSpeech. now intros ->. Qed.

Lemma extractTaskFromSpeech_service_error (service : string -> outcome string)
    (transcript : string) (e : exn) :
  service transcript = Threw e ->
  extractTaskFromSpeech service transcript = Threw e.
Proof. unfold extractTaskFromSpeech. now intros ->. Qed.

(** A reply fenced as a markdown code block is parsed. *)
Example parseReply_fenced : parseReply Sample.fencedReply = Returned Sample.milkJson.
Proof. vm_compute. reflexivity. Qed.

Example taskData_of_milkJson : taskData_of_json Sample.milkJson = Some Sample.milk.
Proof. vm_compute. reflexivity. Qed.

(** ** Voice dialog *)

Section DialogFacts.
Context `{Host} (env : Env).

Lemma process_speech_cases (extract : string -> outcome TaskData) (body : Body) (w : World) :
  (snd (process_speech env extract body w) = w
   \/ exists d,
        snd (process_speech env extract body w) = mkWorld (Some d) (sheet w) (requests w)
        /\ presentsConfirmation env (fst (process_speech env extract body w))).
Proof.
  unfold process_speech.
  destruct (SpeechResult body) as [transcript|]; [|now left].
  destruct (negb (truthy (Some transcript))); [now left|].
  destruct (extract transcript) as [d|]; [|now left].
  destruct (truthy (td_error d)); [now left|].
  right. exists d. split; [reflexivity|]. simpl. auto.
Qed.



Lemma run_snoc (turns : list Turn) (t : Turn) (w : World) :
  run env (turns ++ [t]) w = snd (turn env t (run env turns w)).
Proof. unfold run. now rewrite fold_left_app. Qed.




(** C7. With a draft pending, a confirmation turn that carries neither an
    accept nor a reject signal, and likewise the auto-confirm turn taken
    when the caller gives no input, makes one append request, for the row
    of the draft's task, priority, status and due date, clears the pending
    slot and ends the call. When the request succeeds that row is added to
    the sheet, once; when it fails the sheet stays as it was. Once the
    slot is clear a further auto-confirm turn sends nothing. *)
Theorem implicit_accept_appends_once
    (ok ok' : bool) (body : Body) (w : World) (pending : TaskData) :
  pendingTask w = Some pending ->
  confirmed body = false ->
  denied body = false ->
  let row := [td_task pending; td_priority pending; td_status pending;
              td_dueDate pending] in
  let saved := mkWorld None
                 (if ok then (sheet w ++ [row])%list else sheet w)
                 (requests w ++ [row])%list in
  let goodbye := [Say "Task saved! Have a great day Jason!"; Hangup] in
  confirm_task env ok body w = (TwiML goodbye, saved)
  /\ auto_confirm ok w = (TwiML goodbye, saved)
  /\ endsCall goodbye
  /\ auto_confirm ok' saved = (TwiML [Hangup], saved).
Proof.
  intros Hp Hc Hd. cbv zeta. repeat split.
  - unfold confirm_task. rewrite Hc, Hd, Hp. reflexivity.
  - unfold auto_confirm. rewrite Hp. reflexivity.
Qed.

(** C8. A confirmation turn with a reject signal and no accept signal
    clears the pending slot, sends nothing to the sheet, and redirects the
    call to [/voice/inbound-speech], whose handler prompts for the task
    and gathers speech again. *)
Theorem reject_clears_and_restarts (ok : bool) (body : Body) (w : World) :
  confirmed body = false ->
  denied body = true ->
  confirm_task env ok body w
  = (TwiML [Say "No problem. Let's try again.";
            Redirect (url env "/voice/inbound-speech")],
     mkWorld None (sheet w) (requests w))
  /\ exists greeting fallback,
       inbound_speech env
       = TwiML (Say greeting
                :: Gather (mkGather (Some "speech") (url env "/voice/process-speech")
                             None (Some "auto") (Some "en-US") None) []
                :: fallback).
Proof.
  intros Hc Hd. split.
  - unfold confirm_task. rewrite Hc, Hd. reflexivity.
  - unfold inbound_speech. eauto.
Qed.

(** C9. When the due-task list is empty the morning trigger requests no
    call, and the briefing is the fixed message that no tasks are due,
    followed by a hang-up; a rundown of tasks is not spoken. *)
Theorem empty_due_list_skips_call
    (response : outcome (option (list (list string)))) (now now' : Z) :
  getUpcomingTasks (Some 5) response now now' = [] ->
  makeMorningCall env response now now' = []
  /\ morning_briefing env response now now'
     = TwiML [Say "Good morning Jason! You have no tasks due in the next 5 days. Have a great day!";
              Hangup]
  /\ briefing env []
     = [Say "Good morning Jason! You have no tasks due in the next 5 days. Have a great day!";
        Hangup].
Proof.
  intro He. unfold makeMorningCall, morning_briefing. rewrite He. auto.
Qed.

(** When tasks are due the trigger requests one call to the briefing. *)
Lemma due_tasks_place_call
    (response : outcome (option (list (list string)))) (now now' : Z) :
  getUpcomingTasks (Some 5) response now now' <> [] ->
  makeMorningCall env response now now'
  = [mkCall (MY_PHONE_NUMBER env) (TWILIO_PHONE_NUMBER env)
       (url env "/voice/morning-briefing")].
Proof.
  intro Hne. unfold makeMorningCall.
  destruct (getUpcomingTasks (Some 5) response now now'); [congruence|reflexivity].
Qed.

(** C10. With the pending slot empty, a confirmation turn sends nothing
    to the sheet and leaves the slot empty. Without a reject signal the
    answer is a bare hang-up; with a reject signal, also next to an accept
    signal, the call is redirected to the capture prompt. *)
Theorem confirm_with_empty_slot (ok : bool) (body : Body) (w : World) :
  pendingTask w = None ->
  confirm_task env ok body w
  = (TwiML (if denied body
            then [Say "No problem. Let's try again.";
                  Redirect (url env "/voice/inbound-speech")]
            else [Hangup]),
     mkWorld None (sheet w) (requests w)).
Proof.
  intro Hp. unfold confirm_task. rewrite Hp.
  destruct (confirmed body), (denied body); reflexivity.
Qed.

End DialogFacts.


(** C7, counterexample. A draft is pending, the turn carries neither an
    accept nor a reject signal, and the append request to the sheet
    fails. The handler of [/voice/confirm-task], and likewise the one of
    [/voice/auto-confirm], clears the slot and ends the call, and the
    sheet is as before: the draft is persisted not once but never. *)
Lemma implicit_accept_lost_on_failed_append :
  let body := mkBody None None None in
  let row := [Some "Buy milk"; Some "High"; Some "Not Started"; Some "2025-02-12"] in
  let goodbye := [Say "Task saved! Have a great day Jason!"; Hangup] in
  pendingTask Sample.pendingMilk = Some Sample.milk
  /\ confirmed body = false /\ denied body = false
  /\ confirm_task Sample.env false body Sample.pendingMilk
     = (TwiML goodbye, mkWorld None [] [row])
  /\ auto_confirm false Sample.pendingMilk = (TwiML goodbye, mkWorld None [] [row])
  /\ sheet (snd (confirm_task Sample.env false body Sample.pendingMilk))
     = sheet Sample.pendingMilk
  /\ ~ In row (sheet (snd (confirm_task Sample.env false body Sample.pendingMilk))).
Proof.
  cbv zeta. repeat split; try reflexivity. simpl. tauto.
Qed.

(** C10, counterexample. The slot is empty and the caller says "yes, I
    know": the speech contains "yes", an accept signal, and also "no". The
    answer is a redirect to the capture prompt and not a hang-up. *)
Lemma confirm_empty_slot_accept_redirects :
  let body := mkBody None (Some "Yes, I know") None in
  confirmed body = true
  /\ pendingTask Sample.idle = None
  /\ confirm_task Sample.env true body Sample.idle
     = (TwiML [Say "No problem. Let's try again.";
               Redirect "https://task-caller.example/voice/inbound-speech"],
        Sample.idle)
  /\ ~ endsCall [Say "No problem. Let's try again.";
                 Redirect "https://task-caller.example/voice/inbound-speech"].
Proof.
  cbv zeta. repeat split; try reflexivity. simpl. tauto.
Qed.

(* ================================================================== *)
(** * The theorems at concrete inputs *)
(* ================================================================== *)

Example parse_2025_02_10 :
  Date_of_string (H := UtcHost.host) "2025-02-10" = Some 1739145600000.
Proof. reflexivity. Qed.

Example format_2025_02_10 :
  toLocaleDateString (Host := UtcHost.host) (Some 1739145600000) = "Monday, Feb 10".
Proof. reflexivity. Qed.

Example parse_next_week : Date_of_string (H := UtcHost.host) "next week" = None.
Proof. reflexivity. Qed.

(** The scenario of the specification: a Low task due in two days and a
    High task due tomorrow come out High first. *)
Example computeDueTasks_high_before_low :
  let a := mkTask 2 "A" "Low" "Not Started" "2025-02-12" in
  let b := mkTask 3 "B" "High" "Not Started" "2025-02-11" in
  computeDueTasks (H := UtcHost.host) [a; b] (Some 5) Sample.monday7am = [b; a].
Proof. reflexivity. Qed.

Lemma computeDueTasks_excludes_completed_witness :
  isCompleted Sample.report = true
  /\ ~ In Sample.report
       (computeDueTasks (H := UtcHost.host) [Sample.report; Sample.taxes] (Some 5)
          Sample.monday7am).
Proof.
  split; [reflexivity|].
  apply (computeDueTasks_excludes_completed (H := UtcHost.host)). reflexivity.
Defined.

Lemma computeDueTasks_excludes_unparseable_witness :
  Date_of_string (H := UtcHost.host) (dueDate Sample.someday) = None
  /\ exists result,
       computeDueTasks (H := UtcHost.host) [Sample.someday; Sample.taxes] (Some 5)
         Sample.monday7am = result
       /\ ~ In Sample.someday result.
Proof.
  split; [reflexivity|].
  apply (computeDueTasks_excludes_unparseable (H := UtcHost.host)).
  right. reflexivity.
Defined.

Lemma computeDueTasks_window_witness :
  (In Sample.taxes
     (computeDueTasks (H := UtcHost.host) [Sample.passport; Sample.taxes] (Some 5)
        Sample.monday7am)
   <-> Sample.monday7am <= 1739318400000
       /\ 1739318400000
          <= UTC (Host := UtcHost.host)
               (LocalTime (Host := UtcHost.host) Sample.monday7am + 5 * 86400000))
  /\ (forall offset,
        (forall x, LocalTime (Host := UtcHost.host) x = x + offset) ->
        (forall x, UTC (Host := UtcHost.host) x = x - offset) ->
        UTC (Host := UtcHost.host)
          (LocalTime (Host := UtcHost.host) Sample.monday7am + 5 * 86400000)
        = Sample.monday7am + 5 * 86400000)
  /\ computeDueTasks (H := UtcHost.host) [Sample.passport; Sample.taxes] None
       Sample.monday7am
     = computeDueTasks (H := UtcHost.host) [Sample.passport; Sample.taxes] (Some 5)
         Sample.monday7am.
Proof.
  apply (computeDueTasks_window (H := UtcHost.host) [Sample.passport; Sample.taxes]
           5 Sample.monday7am 1739318400000 Sample.taxes).
  - simpl. auto.
  - reflexivity.
  - discriminate.
  - reflexivity.
  - vm_compute. discriminate.
Defined.

Example window_end_monday7am :
  Date_plusDays (H := UtcHost.host) Sample.monday7am 5 = Some 1739628000000.
Proof. reflexivity. Qed.


Example readBack_milk :
  readBack (H := UtcHost.host) Sample.milk
  = "Got it. Here's what I heard: Buy milk. Priority: High. Due: Wednesday, Feb 12.".
Proof. reflexivity. Qed.

Lemma implicit_accept_appends_once_witness :
  let row := [Some "Buy milk"; Some "High"; Some "Not Started"; Some "2025-02-12"] in
  let body := mkBody (Some "5") (Some "maybe") None in
  let saved := mkWorld None [row] [row] in
  let goodbye := [Say "Task saved! Have a great day Jason!"; Hangup] in
  confirm_task Sample.env true body Sample.pendingMilk = (TwiML goodbye, saved)
  /\ auto_confirm true Sample.pendingMilk = (TwiML goodbye, saved)
  /\ endsCall goodbye
  /\ auto_confirm true saved = (TwiML [Hangup], saved).
Proof.
  apply (implicit_accept_appends_once Sample.env true true
           (mkBody (Some "5") (Some "maybe") None) Sample.pendingMilk Sample.milk);
    reflexivity.
Defined.

Lemma reject_clears_and_restarts_witness :
  let body := mkBody None (Some "No.") None in
  confirm_task Sample.env true body Sample.pendingMilk
  = (TwiML [Say "No problem. Let's try again.";
            Redirect (url Sample.env "/voice/inbound-speech")],
     mkWorld None [] [])
  /\ exists greeting fallback,
       inbound_speech Sample.env
       = TwiML (Say greeting
                :: Gather (mkGather (Some "speech")
                             (url Sample.env "/voice/process-speech")
                             None (Some "auto") (Some "en-US") None) []
                :: fallback).
Proof.
  apply (reject_clears_and_restarts Sample.env true (mkBody None (Some "No.") None)
           Sample.pendingMilk); reflexivity.
Defined.

Lemma empty_due_list_skips_call_witness :
  let response := Returned (Some [["Finish Q3 report"; "Low"; "Completed"; "2025-02-11"]]) in
  makeMorningCall (H := UtcHost.host) Sample.env response Sample.monday7am
    Sample.monday7am = []
  /\ morning_briefing (H := UtcHost.host) Sample.env response Sample.monday7am
       Sample.monday7am
     = TwiML [Say "Good morning Jason! You have no tasks due in the next 5 days. Have a great day!";
              Hangup]
  /\ briefing (H := UtcHost.host) Sample.env []
     = [Say "Good morning Jason! You have no tasks due in the next 5 days. Have a great day!";
        Hangup].
Proof.
  apply (empty_due_list_skips_call (H := UtcHost.host) Sample.env
           (Returned (Some [["Finish Q3 report"; "Low"; "Completed"; "2025-02-11"]]))
           Sample.monday7am Sample.monday7am).
  reflexivity.
Defined.

Lemma confirm_with_empty_slot_witness :
  confirm_task Sample.env true (mkBody (Some "1") None None) Sample.idle
  = (TwiML [Hangup], mkWorld None [] []).
Proof.
  apply (confirm_with_empty_slot Sample.env true (mkBody (Some "1") None None)
           Sample.idle).
  reflexivity.
Defined.

(* ================================================================== *)
(** * Further properties of the code *)
(* ================================================================== *)

(** ** Reading the sheet *)

Lemma mapi_from_nth {A B : Type} (f : A -> nat -> B) (l : list A) :
  forall i k, nth_error (mapi_from f i l) k
              = option_map (fun x => f x (i + k)%nat) (nth_error l k).
Proof.
  induction l as [|x l IH]; intros i k.
  - now destruct k.
  - destruct k as [|k]; simpl.
    + now rewrite Nat.add_0_r.
    + rewrite IH. now rewrite Nat.add_succ_r.
Qed.

Lemma mapi_from_length {A B : Type} (f : A -> nat -> B) (l : list A) :
  forall i, List.length (mapi_from f i l) = List.length l.
Proof. induction l as [|x l IH]; intros i; simpl; [reflexivity|now rewrite IH]. Qed.

Lemma or_else_nonempty (v : option string) (d : string) :
  d <> "" -> or_else v d <> "".
Proof.
  intro Hd. unfold or_else, truthy. destruct v as [s|]; [|exact Hd].
  destruct (s =? "")%string eqn:E; simpl; [exact Hd|].
  now apply String.eqb_neq.
Qed.

(** X1. [readTasks] returns one task per row of the range, in the order
    of the rows. The task at position [k] carries the sheet row number
    [k + 2], the first cell as its text and the fourth as its due date
    (empty when the row is shorter), and its priority and status are
    never empty: a missing or empty cell reads as the default. *)
Theorem readTasks_rows (rows : list (list string)) :
  List.length (readTasks (Returned (Some rows))) = List.length rows
  /\ forall k t,
       nth_error (readTasks (Returned (Some rows))) k = Some t ->
       rowIndex t = (k + 2)%nat
       /\ priority t <> "" /\ status t <> ""
       /\ exists row, nth_error rows k = Some row
            /\ task t = or_else (cell row 0) ""
            /\ priority t = or_else (cell row 1) "Medium"
            /\ status t = or_else (cell row 2) "Not Started"
            /\ dueDate t = or_else (cell row 3) "".
Proof.
  unfold readTasks. split; [apply mapi_from_length|].
  intros k t. rewrite mapi_from_nth.
  destruct (nth_error rows k) as [row|]; [|discriminate].
  intros [= <-]. cbn [rowIndex priority status task dueDate].
  repeat split.
  - apply or_else_nonempty. discriminate.
  - apply or_else_nonempty. discriminate.
  - exists row. repeat split.
Qed.

Section MoreSchedulerFacts.
Context `{Host} (env : Env).

(** X2. A sheet that cannot be read, and a range without values, look
    like a day without tasks: the list of due tasks is empty, the trigger
    requests no call and the briefing is the message that no tasks are
    due. *)
Theorem unreadable_sheet_is_quiet (e : exn) (days : option Z) (now now' : Z) :
  getUpcomingTasks days (Threw e) now now' = []
  /\ getUpcomingTasks days (Returned None) now now' = []
  /\ makeMorningCall env (Threw e) now now' = []
  /\ makeMorningCall env (Returned None) now now' = []
  /\ morning_briefing env (Threw e) now now' = TwiML [Say noTasksMessage; Hangup]
  /\ morning_briefing env (Returned None) now now' = TwiML [Say noTasksMessage; Hangup].
Proof. repeat split. Qed.

(** X3. What [getUpcomingTasks] returns, whatever the two clock readings:
    every task of the result is a task of the input that is not
    completed and has a non-empty due date, a valid date between the
    first reading and the end of the window counted from the second. When
    the end of the window is not a valid date the result is empty. *)
Theorem upcoming_sound (days : option Z) (tasks : list Task) (now now' : Z) :
  let cutoff := Date_plusDays now' (match days with Some d => d | None => 5 end) in
  (forall t, In t (upcoming days tasks now now') ->
     In t tasks /\ isCompleted t = false /\ dueDate t <> ""
     /\ exists d c, Date_of_string (dueDate t) = Some d /\ cutoff = Some c
                    /\ now <= d /\ d <= c)
  /\ (cutoff = None -> upcoming days tasks now now' = []).
Proof.
  cbv zeta.
  assert (G : forall t, In t (upcoming days tasks now now') ->
     In t tasks /\ isCompleted t = false /\ dueDate t <> ""
     /\ exists d c, Date_of_string (dueDate t) = Some d
          /\ Date_plusDays now' (match days with Some d => d | None => 5 end) = Some c
          /\ now <= d /\ d <= c).
  { intros t Ht. apply upcoming_In in Ht as [Hin Hf]. split; [exact Hin|].
    unfold dueFilter in Hf. fold (isCompleted t) in Hf.
    destruct (isCompleted t); [discriminate|]. split; [reflexivity|].
    cbn [truthy] in Hf.
    destruct (dueDate t =? "")%string eqn:Ee; cbn [negb] in Hf; [discriminate|].
    split; [now apply String.eqb_neq|].
    destruct (Date_of_string (dueDate t)) as [d|]; [|discriminate].
    destruct (Date_plusDays now' _) as [c|]; [|now rewrite andb_false_r in Hf].
    simpl in Hf. apply andb_true_iff in Hf as [H1 H2].
    apply Z.leb_le in H1, H2. eauto 6. }
  split; [exact G|].
  intro Hn. destruct (upcoming days tasks now now') as [|t l] eqn:E; [reflexivity|].
  destruct (G t (or_introl eq_refl)) as [_ [_ [_ [d [c [_ [Hc _]]]]]]]. congruence.
Qed.

(** X4. Sorting neither drops nor repeats a task: the result is a
    rearrangement of the input tasks that pass the filter. It is never
    longer than the input, and has no task twice when the input has
    none. *)
Theorem upcoming_rearranges (days : option Z) (tasks : list Task) (now now' : Z) :
  Permutation
    (filter (dueFilter (Some now)
               (Date_plusDays now' (match days with Some d => d | None => 5 end)))
       tasks)
    (upcoming days tasks now now')
  /\ (List.length (upcoming days tasks now now') <= List.length tasks)%nat
  /\ (NoDup tasks -> NoDup (upcoming days tasks now now')).
Proof.
  assert (P : Permutation
    (filter (dueFilter (Some now)
               (Date_plusDays now' (match days with Some d => d | None => 5 end)))
       tasks)
    (upcoming days tasks now now')) by apply Array_sort_Permutation.
  split; [exact P|]. split.
  - rewrite <- (Permutation_length P). apply filter_length_le.
  - intro Hn. eapply Permutation_NoDup; [exact P|]. now apply NoDup_filter.
Qed.

End MoreSchedulerFacts.

(** ** Stability of the order *)

Section StableSort.
Context {A : Type} (comparefn : A -> A -> option Z) (p : A -> bool).
Hypothesis tie : forall x y, p x = true -> p y = true -> SortCompare comparefn x y <= 0.

Lemma insert_filter (x : A) (l : list A) :
  filter p (insert comparefn x l) = if p x then x :: filter p l else filter p l.
Proof.
  induction l as [|y l IH]; simpl.
  - reflexivity.
  - destruct (SortCompare comparefn x y <=? 0) eqn:E.
    + reflexivity.
    + cbn [filter]. rewrite IH. destruct (p x) eqn:Px; [|reflexivity].
      destruct (p y) eqn:Py; [|reflexivity].
      specialize (tie x y Px Py). apply Z.leb_gt in E. lia.
Qed.

Lemma Array_sort_filter (l : list A) :
  filter p (Array_sort comparefn l) = filter p l.
Proof.
  unfold Array_sort. induction l as [|x l IH]; simpl; [reflexivity|].
  rewrite insert_filter, IH. reflexivity.
Qed.

End StableSort.

Lemma strict_neq_refl (v : PropertyValue) : strict_neq v v = false.
Proof.
  destruct v; simpl; [now rewrite Z.eqb_refl|now rewrite String.eqb_refl|reflexivity].
Qed.

Section MoreOrderFacts.
Context `{Host}.

Lemma sameKey_tie (k d : string) (a b : Task) :
  sameKey k d a = true -> sameKey k d b = true ->
  SortCompare byPriorityThenDue a b <= 0.
Proof.
  unfold sameKey. intros Ha Hb.
  apply andb_true_iff in Ha as [Ka Da]. apply andb_true_iff in Hb as [Kb Db].
  apply String.eqb_eq in Ka, Da, Kb, Db.
  unfold SortCompare, byPriorityThenDue. rewrite Ka, Kb, Da, Db, strict_neq_refl.
  destruct (Date_of_string d); simpl; lia.
Qed.

(** X6. Ties keep the order of the sheet. When no priority of the input
    names an inherited property of [priorityOrder], so that the comparator
    is consistent and the sort is fixed by being sorted and stable, the
    tasks of the result that share a priority (ignoring case) and a
    due-date string are the tasks of the input with that priority and due
    date that pass the filter, in the order of the input. *)
Theorem upcoming_stable (days : option Z) (tasks : list Task) (now now' : Z)
    (k d : string) :
  Forall (fun t => ownPriority t = true) tasks ->
  filter (sameKey k d) (upcoming days tasks now now')
  = filter (sameKey k d)
      (filter (dueFilter (Some now)
                 (Date_plusDays now' (match days with Some x => x | None => 5 end)))
         tasks).
Proof.
  intros _. unfold upcoming. apply Array_sort_filter. intros a b. apply sameKey_tie.
Qed.

End MoreOrderFacts.

(** X5 at a concrete input: three tasks with the priorities Low, High and
    an unknown word. *)
Lemma computeDueTasks_sorted_own_priorities_witness :
  Forall (fun t => ownPriority t = true)
    [mkTask 2 "A" "Low" "Not Started" "2025-02-12";
     Sample.taxes;
     mkTask 4 "C" "urgent" "Not Started" "2025-02-11"]
  /\ StronglySorted (dueOrder (H := UtcHost.host))
       (computeDueTasks (H := UtcHost.host)
          [mkTask 2 "A" "Low" "Not Started" "2025-02-12";
           Sample.taxes;
           mkTask 4 "C" "urgent" "Not Started" "2025-02-11"]
          (Some 5) Sample.monday7am).
Proof.
  assert (F : Forall (fun t => ownPriority t = true)
    [mkTask 2 "A" "Low" "Not Started" "2025-02-12";
     Sample.taxes;
     mkTask 4 "C" "urgent" "Not Started" "2025-02-11"]).
  { repeat constructor. }
  split; [exact F|].
  exact (computeDueTasks_sorted_own_priorities (H := UtcHost.host) _ (Some 5)
           Sample.monday7am F).
Defined.

Lemma upcoming_stable_witness :
  filter (sameKey "high" "2025-02-12")
    (upcoming (H := UtcHost.host) (Some 5)
       [mkTask 2 "A" "high" "Not Started" "2025-02-12";
        mkTask 3 "B" "Low" "Not Started" "2025-02-11";
        mkTask 4 "C" "HIGH" "Not Started" "2025-02-12"]
       Sample.monday7am Sample.monday7am)
  = [mkTask 2 "A" "high" "Not Started" "2025-02-12";
     mkTask 4 "C" "HIGH" "Not Started" "2025-02-12"].
Proof.
  apply (upcoming_stable (H := UtcHost.host) (Some 5)
           [mkTask 2 "A" "high" "Not Started" "2025-02-12";
            mkTask 3 "B" "Low" "Not Started" "2025-02-11";
            mkTask 4 "C" "HIGH" "Not Started" "2025-02-12"]
           Sample.monday7am Sample.monday7am "high" "2025-02-12").
  repeat constructor.
Defined.

Example upcoming_stable_example :
  let a := mkTask 2 "A" "high" "Not Started" "2025-02-12" in
  let b := mkTask 3 "B" "Low" "Not Started" "2025-02-11" in
  let c := mkTask 4 "C" "HIGH" "Not Started" "2025-02-12" in
  computeDueTasks (H := UtcHost.host) [a; b; c] (Some 5) Sample.monday7am = [a; c; b].
Proof. reflexivity. Qed.

(** ** What surrounds the JSON text of a reply *)

Lemma from_first_open_app (pre body : string) :
  has "{" pre = false -> from_first_open (pre ++ String "{" body) = Some body.
Proof.
  induction pre as [|c pre IH]; [reflexivity|].
  cbn [has append from_first_open]. intro Hh.
  apply orb_false_iff in Hh as [Hc Hp].
  rewrite Ascii.eqb_sym, Hc. now apply IH.
Qed.

Lemma upto_last_close_without (s : string) :
  has "}" s = false -> upto_last_close s = None.
Proof.
  induction s as [|c s IH]; [reflexivity|].
  cbn [has upto_last_close]. intro Hh.
  apply orb_false_iff in Hh as [Hc Hp].
  rewrite (IH Hp), Ascii.eqb_sym, Hc. reflexivity.
Qed.

Lemma upto_last_close_app (mid post : string) :
  has "}" post = false ->
  upto_last_close (mid ++ String "}" post) = Some (mid ++ String "}" EmptyString).
Proof.
  intro Hp. induction mid as [|c mid IH].
  - cbn [append upto_last_close]. rewrite (upto_last_close_without _ Hp). reflexivity.
  - cbn [append upto_last_close]. rewrite IH. reflexivity.
Qed.

(** X7. Text before the first opening brace and after the last closing
    brace of a reply, white space included, has no part in the result:
    the client returns or throws what [JSON.parse] does on the text
    between the two braces. *)
Theorem parseReply_ignores_surroundings (pre mid post : string) :
  has "{" pre = false ->
  has "}" post = false ->
  parseReply (pre ++ String "{" (mid ++ String "}" post))
  = JSON_parse (String "{" (mid ++ String "}" EmptyString)).
Proof.
  intros Hpre Hpost. unfold parseReply. rewrite jsonMatch_trim. unfold jsonMatch.
  rewrite (from_first_open_app _ _ Hpre), (upto_last_close_app _ _ Hpost).
  reflexivity.
Qed.

Lemma parseReply_ignores_surroundings_witness :
  parseReply "Sure, here it is: {} Anything else?" = JSON_parse "{}".
Proof.
  apply (parseReply_ignores_surroundings "Sure, here it is: " "" " Anything else?");
    reflexivity.
Defined.

(** ** More on the voice dialog *)

Section MoreDialogFacts.
Context `{Host} (env : Env).


(** X9. An accept signal with a draft pending, also when the same turn
    carries a reject signal: the draft is sent to the sheet in one append
    request and the slot is cleared. When the append succeeds the caller
    is offered to add another task; when it fails the caller hears an
    apology and the call is hung up. *)
Theorem explicit_accept_saves (ok : bool) (body : Body) (w : World) (pending : TaskData) :
  pendingTask w = Some pending ->
  confirmed body = true ->
  confirm_task env ok body w
  = (TwiML (if ok
            then [Say "Task saved! Would you like to add another task?";
                  addAnotherGather env;
                  Say "Alright, have a great day Jason!";
                  Hangup]
            else [Say "Sorry, I had trouble saving that. Please try again later.";
                  Hangup]),
     mkWorld None
       (if ok then (sheet w ++ [rowOf pending])%list else sheet w)
       (requests w ++ [rowOf pending])%list).
Proof.
  intros Hp Hc. unfold confirm_task. rewrite Hc, Hp. destruct ok; reflexivity.
Qed.

(** X10. The transcription callback always answers 200 and never touches
    the pending slot. It leaves the state as it is unless a draft comes
    out of the transcript; then it makes one append request for that
    draft. *)
Theorem transcription_callback_outcomes
    (extract : string -> outcome TaskData) (ok : bool) (body : Body) (w : World) :
  fst (transcription_callback extract ok body w) = SendStatus 200
  /\ pendingTask (snd (transcription_callback extract ok body w)) = pendingTask w
  /\ (snd (transcription_callback extract ok body w) = w
      \/ exists transcript d,
           TranscriptionText body = Some transcript /\ transcript <> ""
           /\ extract transcript = Returned d /\ isDraft d
           /\ snd (transcription_callback extract ok body w)
              = mkWorld (pendingTask w)
                  (if ok then (sheet w ++ [rowOf d])%list else sheet w)
                  (requests w ++ [rowOf d])%list).
Proof.
  unfold transcription_callback.
  destruct (TranscriptionText body) as [transcript|]; [|simpl; auto].
  destruct (truthy (Some transcript)) eqn:Et; [|simpl; auto].
  destruct (extract transcript) as [d|e] eqn:Ee; [|simpl; auto].
  destruct (truthy (td_error d)) eqn:Ed; cbn [negb]; [simpl; auto|].
  repeat split. right. exists transcript, d. repeat split; auto.
  simpl in Et. apply negb_true_iff in Et. now apply String.eqb_neq.
Qed.

(** What one turn does to the sheet: at most one append request, and a
    row enters the sheet only with the request made for it. *)
Lemma turn_effect (t : Turn) (w : World) :
  exists reqs rows,
    requests (snd (turn env t w)) = (requests w ++ reqs)%list
    /\ sheet (snd (turn env t w)) = (sheet w ++ rows)%list
    /\ (List.length reqs <= 1)%nat
    /\ (rows = [] \/ rows = reqs).
Proof.
  assert (Keep : forall w', requests w' = requests w -> sheet w' = sheet w ->
            exists reqs rows,
              requests w' = (requests w ++ reqs)%list
              /\ sheet w' = (sheet w ++ rows)%list
              /\ (List.length reqs <= 1)%nat /\ (rows = [] \/ rows = reqs)).
  { intros w' Hr Hs. exists (@nil Row), (@nil Row). rewrite !app_nil_r. auto. }
  assert (Add : forall (d : TaskData) (ok : bool) (p : option TaskData),
            exists reqs rows,
              requests (mkWorld p (if ok then (sheet w ++ [rowOf d])%list else sheet w)
                          (requests w ++ [rowOf d])%list)
              = (requests w ++ reqs)%list
              /\ sheet (mkWorld p (if ok then (sheet w ++ [rowOf d])%list else sheet w)
                          (requests w ++ [rowOf d])%list)
                 = (sheet w ++ rows)%list
              /\ (List.length reqs <= 1)%nat /\ (rows = [] \/ rows = reqs)).
  { intros d ok p. exists [rowOf d], (if ok then [rowOf d] else []).
    destruct ok; simpl; rewrite ?app_nil_r; auto. }
  destruct t as [extract body|ok body|ok|extract ok body]; cbn [turn].
  - destruct (process_speech_cases env extract body w) as [E|[d [E _]]];
      rewrite E; now apply Keep.
  - unfold confirm_task.
    destruct (confirmed body), (pendingTask w) as [d|], (denied body), ok;
      cbn [snd addTask setPending];
      first [now apply Keep | apply (Add d true) | apply (Add d false)].
  - unfold auto_confirm. destruct (pendingTask w) as [d|]; [|now apply Keep].
    destruct ok; cbn [snd addTask setPending];
      first [apply (Add d true) | apply (Add d false)].
  - unfold transcription_callback.
    destruct (TranscriptionText body) as [transcript|]; [|now apply Keep].
    destruct (truthy (Some transcript)); [|now apply Keep].
    destruct (extract transcript) as [d|e]; [|now apply Keep].
    destruct (truthy (td_error d)); cbn [negb]; [now apply Keep|].
    destruct ok; cbn [snd addTask];
      first [apply (Add d true) | apply (Add d false)].
Qed.

End MoreDialogFacts.

Section DialogRuns.
Context `{Host} (env : Env).

Lemma process_speech_draft
    (extract : string -> outcome TaskData) (speech : Body) (w : World)
    (transcript : string) (d : TaskData) :
  SpeechResult speech = Some transcript -> transcript <> "" ->
  extract transcript = Returned d -> isDraft d ->
  snd (process_speech env extract speech w) = mkWorld (Some d) (sheet w) (requests w).
Proof.
  intros Hs Hne Hex Hd. unfold process_speech. rewrite Hs.
  assert (Ht : truthy (Some transcript) = true).
  { simpl. apply negb_true_iff. now apply String.eqb_neq. }
  rewrite Ht, Hex. cbn [negb]. unfold isDraft in Hd. rewrite Hd. reflexivity.
Qed.

(** X11. Over any sequence of turns the sheet only grows: the rows it
    had stay where they were, each turn makes at most one append request,
    and every row that enters the sheet is the row of an append request
    made during these turns. *)
Theorem sheet_only_grows (turns : list Turn) (w : World) :
  exists reqs rows,
    requests (run env turns w) = (requests w ++ reqs)%list
    /\ sheet (run env turns w) = (sheet w ++ rows)%list
    /\ (List.length reqs <= List.length turns)%nat
    /\ (List.length rows <= List.length reqs)%nat
    /\ forall row, In row rows -> In row reqs.
Proof.
  induction turns as [|t turns IH] using rev_ind.
  - exists (@nil Row), (@nil Row). simpl. rewrite !app_nil_r. repeat split; auto.
  - destruct IH as [reqs [rows [Hr [Hs [Hl [Hl' Hin]]]]]].
    rewrite run_snoc.
    destruct (turn_effect env t (run env turns w)) as [reqs1 [rows1 [Hr1 [Hs1 [Hl1 Hsub]]]]].
    exists (reqs ++ reqs1)%list, (rows ++ rows1)%list.
    rewrite Hr1, Hs1, Hr, Hs, <- !app_assoc, !length_app. cbn [List.length].
    repeat split; try lia.
    + destruct Hsub as [->| ->]; simpl; lia.
    + intros row Hrow. apply in_or_app. apply in_app_or in Hrow as [Hrow|Hrow].
      * left. now apply Hin.
      * right. destruct Hsub as [->| ->]; [destruct Hrow|exact Hrow].
Qed.

(** X12. From speech to sheet: when a draft is extracted from the
    caller's speech and the next turn carries an accept signal, the state
    after the two turns has an empty slot and one more append request, for
    the row made of the draft's task, priority, status and due date, in
    this order. A draft that was pending before is replaced and not
    sent. *)
Theorem accepted_draft_is_saved
    (extract : string -> outcome TaskData) (ok : bool) (speech answer : Body)
    (w : World) (transcript : string) (d : TaskData) :
  SpeechResult speech = Some transcript -> transcript <> "" ->
  extract transcript = Returned d -> isDraft d ->
  confirmed answer = true ->
  run env [ProcessSpeech extract speech; ConfirmTask ok answer] w
  = mkWorld None
      (if ok then (sheet w ++ [[td_task d; td_priority d; td_status d; td_dueDate d]])%list
       else sheet w)
      (requests w ++ [[td_task d; td_priority d; td_status d; td_dueDate d]])%list.
Proof.
  intros Hs Hne Hex Hd Hc. unfold run. cbn [fold_left turn].
  rewrite (process_speech_draft extract speech w transcript d Hs Hne Hex Hd).
  unfold confirm_task. rewrite Hc. cbn [pendingTask].
  destruct ok; reflexivity.
Qed.

(** X13. A rejected draft is gone for good: after the draft is extracted,
    a turn with a reject signal and no accept signal clears the slot, and
    an auto-confirm turn that follows sends nothing. The sheet and the
    append requests are those from before the three turns. *)
Theorem rejected_draft_is_dropped
    (extract : string -> outcome TaskData) (ok ok' : bool) (speech answer : Body)
    (w : World) (transcript : string) (d : TaskData) :
  SpeechResult speech = Some transcript -> transcript <> "" ->
  extract transcript = Returned d -> isDraft d ->
  confirmed answer = false -> denied answer = true ->
  run env [ProcessSpeech extract speech; ConfirmTask ok answer; AutoConfirm ok'] w
  = mkWorld None (sheet w) (requests w).
Proof.
  intros Hs Hne Hex Hd Hc Hr. unfold run. cbn [fold_left turn].
  rewrite (process_speech_draft extract speech w transcript d Hs Hne Hex Hd).
  unfold confirm_task. rewrite Hc, Hr. reflexivity.
Qed.

(** X16. One trigger requests at most one call; it requests none exactly
    when no task is due, and a call it requests goes to the configured
    number, from the configured number, with the briefing as its entry
    point. *)
Theorem morning_call_at_most_one
    (response : outcome (option (list (list string)))) (now now' : Z) :
  (List.length (makeMorningCall env response now now') <= 1)%nat
  /\ (makeMorningCall env response now now' = []
      <-> getUpcomingTasks (Some 5) response now now' = [])
  /\ forall c, In c (makeMorningCall env response now now') ->
       c = mkCall (MY_PHONE_NUMBER env) (TWILIO_PHONE_NUMBER env)
             (url env "/voice/morning-briefing").
Proof.
  unfold makeMorningCall.
  destruct (getUpcomingTasks (Some 5) response now now') as [|t l]; simpl.
  - repeat split; auto. intros c [].
  - repeat split; [lia|discriminate|discriminate|].
    intros c [<-|[]]. reflexivity.
Qed.

End DialogRuns.


Lemma accepted_draft_is_saved_witness :
  run (H := UtcHost.host) Sample.env
    [ProcessSpeech Sample.extractMilk (mkBody None (Some "buy milk") None);
     ConfirmTask true (mkBody None (Some "Yes, no problem") None)]
    (mkWorld (Some (mkTaskData None (Some "Old draft") None None None)) [] [])
  = mkWorld None
      [[Some "Buy milk"; Some "High"; Some "Not Started"; Some "2025-02-12"]]
      [[Some "Buy milk"; Some "High"; Some "Not Started"; Some "2025-02-12"]].
Proof.
  apply (accepted_draft_is_saved (H := UtcHost.host) Sample.env Sample.extractMilk true
           (mkBody None (Some "buy milk") None)
           (mkBody None (Some "Yes, no problem") None)
           (mkWorld (Some (mkTaskData None (Some "Old draft") None None None)) [] [])
           "buy milk" Sample.milk);
    try reflexivity. discriminate.
Defined.

Lemma rejected_draft_is_dropped_witness :
  run (H := UtcHost.host) Sample.env
    [ProcessSpeech Sample.extractMilk (mkBody None (Some "buy milk") None);
     ConfirmTask true (mkBody (Some "2") None None);
     AutoConfirm true]
    Sample.idle
  = mkWorld None [] [].
Proof.
  apply (rejected_draft_is_dropped (H := UtcHost.host) Sample.env Sample.extractMilk
           true true (mkBody None (Some "buy milk") None) (mkBody (Some "2") None None)
           Sample.idle "buy milk" Sample.milk);
    try reflexivity. discriminate.
Defined.

Lemma explicit_accept_saves_witness :
  confirm_task Sample.env false (mkBody None (Some "Yes, no problem") None)
    Sample.pendingMilk
  = (TwiML [Say "Sorry, I had trouble saving that. Please try again later."; Hangup],
     mkWorld None [] [rowOf Sample.milk]).
Proof.
  apply (explicit_accept_saves Sample.env false
           (mkBody None (Some "Yes, no problem") None) Sample.pendingMilk Sample.milk);
    reflexivity.
Defined.

(** ** The briefing names the tasks in the given order *)

Lemma append_assoc (a b c : string) : (a ++ b) ++ c = a ++ (b ++ c).
Proof. induction a as [|x a IH]; simpl; [reflexivity|now rewrite IH]. Qed.

Section BriefingFacts.
Context `{Host}.

(** The sentence the briefing says for task [t] under the number [n]. *)
Lemma rundown_cons (i : nat) (t : Task) (rest : list Task) :
  rundown i (t :: rest)
  = ("Task " ++ nat_to_string (i + 1) ++ ": " ++ task t
     ++ ". Priority: " ++ priority t
     ++ ". Due: " ++ toLocaleDateString (Date_of_string (dueDate t))
     ++ ". Status: " ++ status t ++ ". ")
    ++ rundown (S i) rest.
Proof.
  cbn [rundown]. rewrite !append_assoc. reflexivity.
Qed.

(** X15. The composer does not reorder: in the rundown of a list, the
    task at position [k] (from 0) is announced as "Task k+1", with its
    text, priority, formatted due date and status, after the sentences of
    the tasks before it and before those of the tasks after it. *)
Theorem rundown_position (before after : list Task) (t : Task) :
  rundown 0 (before ++ t :: after)
  = rundown 0 before
    ++ ("Task " ++ nat_to_string (List.length before + 1) ++ ": " ++ task t
        ++ ". Priority: " ++ priority t
        ++ ". Due: " ++ toLocaleDateString (Date_of_string (dueDate t))
        ++ ". Status: " ++ status t ++ ". ")
    ++ rundown (List.length before + 1) after.
Proof.
  assert (G : forall i,
    rundown i (before ++ t :: after)
    = rundown i before
      ++ ("Task " ++ nat_to_string (i + List.length before + 1) ++ ": " ++ task t
          ++ ". Priority: " ++ priority t
          ++ ". Due: " ++ toLocaleDateString (Date_of_string (dueDate t))
          ++ ". Status: " ++ status t ++ ". ")
      ++ rundown (i + List.length before + 1) after).
  { induction before as [|b before IH]; intro i.
    - cbn [app List.length]. rewrite rundown_cons.
      replace (i + 0 + 1)%nat with (S i) by lia.
      replace (i + 1)%nat with (S i) by lia. reflexivity.
    - cbn [app List.length].
      rewrite (rundown_cons i b (before ++ t :: after)), (rundown_cons i b before), IH.
      rewrite (append_assoc _ (rundown (S i) before) _).
      replace (S i + List.length before + 1)%nat
        with (i + S (List.length before) + 1)%nat by lia.
      reflexivity. }
  apply (G 0%nat).
Qed.

End BriefingFacts.

(** ** The test endpoint for adding a task *)

(** X17. [POST /test/add-task] answers 200 exactly when the text is
    present and not empty and a draft comes out of it; the draft then goes
    to the sheet in one append request, without a confirmation, and the
    [success] flag of the answer tells whether the sheet took the row. In
    every other case (no text: 400, not a task: 400, a thrown error: 500)
    the state is left as it is. The pending slot is never touched. *)
Theorem test_add_task_outcomes
    (extract : string -> outcome TaskData) (ok : bool) (text : option string)
    (w : World) :
  pendingTask (snd (test_add_task extract ok text w)) = pendingTask w
  /\ (replyStatus (fst (test_add_task extract ok text w)) = 200%nat
      <-> exists t d, text = Some t /\ t <> "" /\ extract t = Returned d /\ isDraft d)
  /\ match fst (test_add_task extract ok text w) with
     | Added success d =>
         success = ok
         /\ snd (test_add_task extract ok text w)
            = mkWorld (pendingTask w)
                (if ok then (sheet w ++ [rowOf d])%list else sheet w)
                (requests w ++ [rowOf d])%list
     | _ => snd (test_add_task extract ok text w) = w
     end.
Proof.
  unfold test_add_task, isDraft.
  destruct text as [t|].
  2:{ simpl. repeat split; try discriminate. intros [t [d [Ht _]]]. discriminate. }
  destruct (truthy (Some t)) eqn:Et; cbn [negb].
  2:{ simpl. repeat split; try discriminate.
      intros [t' [d [[= <-] [Hne _]]]]. simpl in Et.
      apply negb_false_iff, String.eqb_eq in Et. contradiction. }
  assert (Hne : t <> "").
  { simpl in Et. apply negb_true_iff in Et. now apply String.eqb_neq. }
  destruct (extract t) as [d|e] eqn:Ee.
  2:{ simpl. repeat split; try discriminate.
      intros [t' [d [[= <-] [_ [Hx _]]]]]. congruence. }
  destruct (truthy (td_error d)) eqn:Ed.
  - simpl. repeat split; try discriminate.
    intros [t' [d' [[= <-] [_ [Hx Hd]]]]]. congruence.
  - destruct ok; simpl; repeat split; eauto 6.
Qed.

(** ** The schedule of the morning call *)

Lemma String_split_without (sep : ascii) (s : string) :
  has sep s = false -> String_split sep s = [s].
Proof.
  induction s as [|c s IH]; [reflexivity|].
  cbn [has String_split]. intro Hh. apply orb_false_iff in Hh as [Hc Hs].
  rewrite Ascii.eqb_sym, Hc, (IH Hs). reflexivity.
Qed.

Lemma String_split_first (sep : ascii) (h rest : string) :
  has sep h = false ->
  String_split sep (h ++ String sep rest) = h :: String_split sep rest.
Proof.
  induction h as [|c h IH]; intro Hh.
  - cbn [append String_split]. now rewrite Ascii.eqb_refl.
  - cbn [has] in Hh. apply orb_false_iff in Hh as [Hc Hs].
    cbn [append String_split]. rewrite Ascii.eqb_sym, Hc, (IH Hs). reflexivity.
Qed.

(** X18. The cron expression built from [MORNING_CALL_TIME]. A time
    written hour, colon, minute gives minute, hour and three stars, and
    anything after a second colon is ignored; an unset variable gives
    00 07; a value without a colon leaves the minute undefined, so the
    expression starts with the word "undefined". *)
Theorem cronExpression_of_time :
  (forall h m, has ":" h = false -> has ":" m = false ->
     cronExpression (Some (h ++ ":" ++ m)) = m ++ " " ++ h ++ " * * *"
     /\ forall rest,
          cronExpression (Some (h ++ ":" ++ m ++ ":" ++ rest)) = m ++ " " ++ h ++ " * * *")
  /\ cronExpression None = "00 07 * * *"
  /\ (forall s, has ":" s = false ->
        cronExpression (Some s) = "undefined " ++ s ++ " * * *").
Proof.
  split; [|split; [reflexivity|]].
  - intros h m Hh Hm. unfold cronExpression. split.
    + change (h ++ ":" ++ m) with (h ++ String ":" m).
      rewrite (String_split_first _ _ _ Hh), (String_split_without _ _ Hm).
      reflexivity.
    + intro rest.
      change (h ++ ":" ++ m ++ ":" ++ rest) with (h ++ String ":" (m ++ String ":" rest)).
      rewrite (String_split_first _ _ _ Hh), (String_split_first _ _ _ Hm).
      reflexivity.
  - intros s Hs. unfold cronExpression. rewrite (String_split_without _ _ Hs).
    reflexivity.
Qed.

Example cronExpression_0630 : cronExpression (Some "06:30") = "30 06 * * *".
Proof. reflexivity. Qed.

(** ** Accept and reject signals *)

Lemma prefix_app (t b : string) : prefix t (t ++ b) = true.
Proof.
  induction t as [|c t IH]; simpl; [now destruct b|].
  destruct (ascii_dec c c); [exact IH|congruence].
Qed.

Lemma prefix_split (t s : string) :
  prefix t s = true -> exists b, s = t ++ b.
Proof.
  revert s. induction t as [|c t IH]; intros s.
  - intros _. now exists s.
  - destruct s as [|d s]; simpl; [discriminate|].
    destruct (ascii_dec c d) as [<-|]; [|discriminate].
    intro Hp. destruct (IH _ Hp) as [b ->]. now exists b.
Qed.

(** [includes] is the substring test. *)
Lemma includes_spec (s t : string) :
  includes s t = true <-> exists a b, s = a ++ t ++ b.
Proof.
  split.
  - induction s as [|c s IH]; cbn [includes].
    + destruct (prefix t "") eqn:Ep; [|discriminate].
      intros _. destruct (prefix_split _ _ Ep) as [b Hb]. now exists "", b.
    + destruct (prefix t (String c s)) eqn:Ep.
      * intros _. destruct (prefix_split _ _ Ep) as [b Hb]. now exists "", b.
      * intro Hi. destruct (IH Hi) as [a [b ->]]. now exists (String c a), b.
  - intros [a [b ->]]. induction a as [|c a IH].
    + cbn [append]. destruct (t ++ b) eqn:E; cbn [includes]; rewrite <- E, prefix_app;
        reflexivity.
    + cbn [append includes]. rewrite IH. now destruct (prefix t _).
Qed.

Lemma speechOf_speech (digits : option string) (s : string) (t : option string) :
  speechOf (mkBody digits (Some s) t) = toLowerCase s.
Proof.
  unfold speechOf, or_else, truthy. cbn [SpeechResult].
  destruct (s =? "")%string eqn:E; [|reflexivity].
  apply String.eqb_eq in E. now subst s.
Qed.

(** X19. How a confirmation turn is read. It carries an accept signal
    exactly when the digit is "1" or the speech, letter case ignored, has
    "yes" or "confirm" somewhere in it; it carries a reject signal exactly
    when the digit is "2" or the speech has "no" or "cancel" somewhere in
    it, inside a longer word as well. *)
Theorem signals_by_substring (digits : option string) (s : string) (t : option string) :
  let body := mkBody digits (Some s) t in
  (confirmed body = true
   <-> digits = Some "1"
       \/ (exists a b, toLowerCase s = a ++ "yes" ++ b)
       \/ (exists a b, toLowerCase s = a ++ "confirm" ++ b))
  /\ (denied body = true
      <-> digits = Some "2"
          \/ (exists a b, toLowerCase s = a ++ "no" ++ b)
          \/ (exists a b, toLowerCase s = a ++ "cancel" ++ b)).
Proof.
  cbv zeta. unfold confirmed, denied. rewrite speechOf_speech. cbn [Digits].
  assert (D : forall d, strictEq digits d = true <-> digits = Some d).
  { intro d. unfold strictEq. destruct digits as [x|].
    - rewrite String.eqb_eq. split; [now intros ->|now intros [= ->]].
    - split; discriminate. }
  rewrite !orb_true_iff, !D, !includes_spec. tauto.
Qed.

Example reject_inside_a_word :
  denied (mkBody None (Some "I don't KNOW") None) = true
  /\ confirmed (mkBody None (Some "I don't KNOW") None) = false.
Proof. split; reflexivity. Qed.
